(** * untime: heuristic code-quality scores over a Python syntax tree

    A shallow embedding of [untime/rules.py] and [untime/complexity.py].

    - A syntax tree is a Python [ast] object graph: every node carries its
      class name and its fields in [_fields] order; a field holds a node, a
      list of nodes, a string, a list of strings, a number or [None].
    - Attribute access is dynamic in the source, so [getattr] is fallible and
      the rules that read attributes live in an error monad.
    - Python floats are modelled by exact rationals ([Q]); [int], [bool] and
      [float] operands of one arithmetic expression are all injected in [Q].
      Equality of scores is therefore [Qeq].
    - The fact sets are finite sets of strings ([gset string]).
    - [ast.parse] and the file system are external: the parser is a section
      variable, the file system an argument of [analyze_file].
    - The three recursive rules come in two forms.  The structural form
      ([calculate_cyclomatic_complexity], ...) is the value of the call when
      the interpreter's limit on nested calls is not reached; the form
      indexed by the frames still available ([..._within frames]) raises
      [RecursionError] when the tree is deeper than that.  The two agree on
      every tree whose height is within the frames available. *)

From Stdlib Require Import String List ZArith QArith Qminmax Lia Lqa Permutation.
From stdpp Require Import base option list gmap strings.
Import ListNotations.

Local Open Scope string_scope.
Local Open Scope list_scope.

(** ** Exceptions and the error monad *)

Inductive exn : Type :=
| AttributeError (cls attr : string)   (* '<cls>' object has no attribute '<attr>' *)
| TypeError (msg : string)
| SyntaxError (msg : string)           (* raised by ast.parse *)
| OSError (msg : string)               (* raised by Path.open / read *)
| RecursionError.                      (* maximum recursion depth exceeded *)

Inductive result (A : Type) : Type :=
| Ok (a : A)
| Raise (e : exn).
Arguments Ok {A} a.
Arguments Raise {A} e.

#[global] Instance result_ret : MRet result := fun A a => Ok a.
#[global] Instance result_bind : MBind result :=
  fun A B f m => match m with Ok a => f a | Raise e => Raise e end.

(** ** Syntax trees as the [ast] module builds them *)

Inductive node : Type :=
| Node (cls : string) (fields : list (string * value))
with value : Type :=
| VNode (n : node)                (* a child node *)
| VList (ns : list node)          (* a list of child nodes *)
| VStr (s : string)               (* an identifier or string *)
| VStrList (ss : list string)     (* a list of identifiers (Global.names) *)
| VInt (z : Z)                    (* a number *)
| VNone.

Definition node_class (n : node) : string :=
  match n with Node cls _ => cls end.

Definition node_fields (n : node) : list (string * value) :=
  match n with Node _ fields => fields end.

(** [isinstance(node, (C1, ..., Ck))]: the classes the rules test are leaf
    classes of [ast], so the test compares class names. *)
Definition isinstance (n : node) (classes : list string) : bool :=
  existsb (String.eqb (node_class n)) classes.

Fixpoint lookup_field (name : string) (fields : list (string * value)) : option value :=
  match fields with
  | [] => None
  | (k, v) :: rest => if String.eqb k name then Some v else lookup_field name rest
  end.

(** [node.<name>] *)
Definition getattr (n : node) (name : string) : result value :=
  match lookup_field name (node_fields n) with
  | Some v => Ok v
  | None => Raise (AttributeError (node_class n) name)
  end.

(** [len(v)] *)
Definition py_len (v : value) : result nat :=
  match v with
  | VList ns => Ok (length ns)
  | VStrList ss => Ok (length ss)
  | VStr s => Ok (String.length s)
  | VNode n => Raise (TypeError "object has no len()")
  | VInt _ => Raise (TypeError "object of type 'int' has no len()")
  | VNone => Raise (TypeError "object of type 'NoneType' has no len()")
  end.

(** The nodes among the items of [for x in v].  Every loop of the source over
    a field value keeps only items that pass an [isinstance] test against a
    node class, which strings never pass. *)
Definition iter_ast_items (v : value) : result (list node) :=
  match v with
  | VList ns => Ok ns
  | VStrList _ | VStr _ => Ok []
  | VNode n => Raise (TypeError "object is not iterable")
  | VInt _ => Raise (TypeError "'int' object is not iterable")
  | VNone => Raise (TypeError "'NoneType' object is not iterable")
  end.

(** An element put in one of the fact sets.  The parser stores a string in
    every attribute the comprehensions collect; the model keeps sets of
    strings and reports any other value as a [TypeError]. *)
Definition to_set_item (v : value) : result string :=
  match v with
  | VStr s => Ok s
  | _ => Raise (TypeError "set element is not a str")
  end.

(** [v in s] for a set [s] of strings.  A node is hashable (by identity) and
    equal to no string; a list is unhashable. *)
Definition set_contains (s : gset string) (v : value) : result bool :=
  match v with
  | VStr k => Ok (bool_decide (k ∈ s))
  | VNode _ | VInt _ | VNone => Ok false
  | VList _ | VStrList _ => Raise (TypeError "unhashable type: 'list'")
  end.

(** The nodes a field value contributes to [ast.iter_child_nodes]. *)
Definition child_nodes (v : value) : list node :=
  match v with
  | VNode n => [n]
  | VList ns => ns
  | _ => []
  end.

(** [ast.iter_child_nodes(node)]: field by field, in [_fields] order. *)
Definition iter_child_nodes (n : node) : list node :=
  flat_map (fun p => child_nodes (snd p)) (node_fields n).

(** [for child in ast.iter_child_nodes(node): acc = body(acc, child)], with
    the generator inlined so that recursive calls in [body] are structural. *)
Definition for_children {A : Type} (fields : list (string * value))
    (body : A -> node -> A) (init : A) : A :=
  fold_left (fun acc p =>
     match snd p with
     | VNode c => body acc c
     | VList cs => fold_left body cs acc
     | _ => acc
     end) fields init.

(** Number of nodes of a tree. *)
Fixpoint size (n : node) : nat :=
  match n with
  | Node _ fields => S (for_children fields (fun acc c => acc + size c) 0)
  end.

(** Depth-first enumeration of the nodes of a tree. *)
Fixpoint preorder (n : node) : list node :=
  match n with
  | Node _ fields => n :: for_children fields (fun acc c => acc ++ preorder c) []
  end.

(** [ast.walk(node)]: breadth-first, driven by a queue.  Each iteration pops
    one node, so [size node] iterations empty the queue. *)
Fixpoint walk_loop (fuel : nat) (todo : list node) : list node :=
  match fuel with
  | O => []
  | S fuel' =>
    match todo with
    | [] => []
    | n :: rest => n :: walk_loop fuel' (rest ++ iter_child_nodes n)
    end
  end.

Definition walk (n : node) : list node := walk_loop (size n) [n].

(** ** Numbers *)

Definition Qnat (n : nat) : Q := inject_Z (Z.of_nat n).

(** [sum(xs)] over numbers: left to right from [0]. *)
Definition py_sum (xs : list Q) : Q := fold_left Qplus xs 0%Q.

(** [sum(bs)] over booleans: [True] counts 1. *)
Definition py_sum_bool (bs : list bool) : nat := length (List.filter (fun b => b) bs).

(** [any(bs)] *)
Definition py_any (bs : list bool) : bool := existsb (fun b => b) bs.

(** [sum(ns)] over integers. *)
Definition py_sum_int (ns : list nat) : nat := fold_left Nat.add ns 0.

(** [any(f(x) for x in xs)]: stops at the first true item. *)
Fixpoint py_any_of {A : Type} (f : A -> result bool) (xs : list A) : result bool :=
  match xs with
  | [] => Ok false
  | x :: rest => b ← f x; if (b : bool) then Ok true else py_any_of f rest
  end.

(** [v.<name>] for an arbitrary value [v]. *)
Definition getattr_value (v : value) (name : string) : result value :=
  match v with
  | VNode n => getattr n name
  | VList _ | VStrList _ => Raise (AttributeError "list" name)
  | VStr _ => Raise (AttributeError "str" name)
  | VInt _ => Raise (AttributeError "int" name)
  | VNone => Raise (AttributeError "NoneType" name)
  end.

(** ** rules.py

    The three recursive rules are given here as structural recursions: the
    value the call returns when the interpreter's limit on nested calls is
    not reached.  Their forms under that limit, which can raise
    [RecursionError], follow the sample trees. *)

Fixpoint calculate_cyclomatic_complexity (n : node) : Q :=
  match n with
  | Node _ fields =>
    let complexity := 0%Q in
    let complexity :=
      if isinstance n ["If"; "For"; "While"; "With"; "Try"; "ExceptHandler"]
      then (complexity + 1)%Q else complexity in
    let complexity :=
      for_children fields
        (fun complexity child =>
           (complexity + calculate_cyclomatic_complexity child)%Q)
        complexity in
    Qmin (complexity / 10) 1
  end.

Fixpoint calculate_nesting_depth (n : node) (current_depth : Q) : Q :=
  match n with
  | Node _ fields =>
    let current_depth :=
      if isinstance n ["If"; "For"; "While"; "With"; "Try"]
      then (current_depth + 1)%Q else current_depth in
    let max_depth := current_depth in
    let max_depth :=
      for_children fields
        (fun max_depth child =>
           Qmax max_depth (calculate_nesting_depth child current_depth))
        max_depth in
    Qmin (max_depth / 5) 1
  end.

Definition calculate_function_length (n : node) : result Q :=
  if isinstance n ["FunctionDef"] then
    body ← getattr n "body";
    len ← py_len body;
    mret (Qmin (Qnat len / 50) 1)
  else mret 0%Q.

Definition calculate_parameter_count (n : node) : result Q :=
  if isinstance n ["FunctionDef"] then
    args ← getattr n "args";
    args ← getattr_value args "args";
    len ← py_len args;
    mret (Qmin (Qnat len / 10) 1)
  else mret 0%Q.

(** [isinstance(child, ast.Name) and child.id in names] *)
Definition is_name_in (names : gset string) (child : node) : result bool :=
  if isinstance child ["Name"] then
    id ← getattr child "id";
    set_contains names id
  else mret false.

Definition calculate_class_coupling (n : node) (class_names : gset string) : result Q :=
  if isinstance n ["ClassDef"] then
    flags ← mapM (is_name_in class_names) (walk n);
    let num_references := py_sum_bool flags in
    mret (Qmin (Qnat num_references / 10) 1)
  else mret 0%Q.

Definition calculate_cohesion (n : node) : result Q :=
  if isinstance n ["ClassDef"] then
    body ← getattr n "body";
    items ← iter_ast_items body;
    let methods := List.filter (fun m => isinstance m ["FunctionDef"]) items in
    match methods with
    | [] => mret 0%Q
    | _ :: _ =>
      attrs ← mapM (fun a => v ← getattr a "attr"; to_set_item v)
                   (List.filter (fun a => isinstance a ["Attribute"]) (walk n));
      let attributes : gset string := list_to_set attrs in
      flags ← mapM (fun method =>
                      py_any_of (fun attr => set_contains attributes (VNode attr))
                                (walk method))
                   methods;
      let shared_attributes := py_sum_bool flags in
      mret (1 - Qnat shared_attributes / Qnat (length methods))%Q
    end
  else mret 0%Q.

Definition calculate_global_variable_usage (n : node) (global_vars : gset string) : result Q :=
  flags ← mapM (is_name_in global_vars) (walk n);
  let usage_count := py_sum_bool flags in
  mret (Qmin (Qnat usage_count / 10) 1).

Fixpoint calculate_inheritance_depth (n : node) (depth : Q) : result Q :=
  match n with
  | Node _ fields =>
    depth ← (if isinstance n ["ClassDef"] then
               bases ← getattr n "bases";
               len ← py_len bases;
               mret (depth + Qnat len)%Q
             else mret depth);
    let max_depth := depth in
    max_depth ←
      for_children fields
        (fun acc child =>
           max_depth ← acc;
           d ← calculate_inheritance_depth child depth;
           mret (Qmax max_depth d))
        (mret max_depth);
    mret (Qmin (max_depth / 5) 1)
  end.

Definition calculate_number_of_interfaces (n : node) : result Q :=
  if isinstance n ["ClassDef"] then
    bases ← getattr n "bases";
    len ← py_len bases;
    mret (Qmin (Qnat len / 5) 1)
  else mret 0%Q.

(** [isinstance(child, ast.FunctionDef) and child.name in class_methods] *)
Definition is_method_in (class_methods : gset string) (child : node) : result bool :=
  if isinstance child ["FunctionDef"] then
    name ← getattr child "name";
    set_contains class_methods name
  else mret false.

Definition calculate_polymorphism (n : node) (class_methods : gset string) : result Q :=
  if isinstance n ["ClassDef"] then
    body ← getattr n "body";
    items ← iter_ast_items body;
    flags ← mapM (is_method_in class_methods) items;
    let overridden_methods := py_sum_bool flags in
    mret (Qmin (Qnat overridden_methods / 5) 1)
  else mret 0%Q.

Definition calculate_import_count (n : node) : nat :=
  if isinstance n ["Import"; "ImportFrom"] then 1 else 0.

Definition calculate_import_complexity (tree : node) : Q :=
  let import_count := py_sum_int (map calculate_import_count (walk tree)) in
  Qmin (Qnat import_count / 20) 1.

(** ** complexity.py *)

(** [{node.name for node in ast.walk(tree) if isinstance(node, ast.ClassDef)}] *)
Definition class_names (tree : node) : result (gset string) :=
  names ← mapM (fun n => v ← getattr n "name"; to_set_item v)
               (List.filter (fun n => isinstance n ["ClassDef"]) (walk tree));
  mret (list_to_set names).

(** [{node.id for node in ast.walk(tree) if isinstance(node, ast.Global)}] *)
Definition global_vars (tree : node) : result (gset string) :=
  names ← mapM (fun n => v ← getattr n "id"; to_set_item v)
               (List.filter (fun n => isinstance n ["Global"]) (walk tree));
  mret (list_to_set names).

(** The method names of one class: [method.name for method in cls.body if
    isinstance(method, ast.FunctionDef)]. *)
Definition method_names (cls : node) : result (list string) :=
  body ← getattr cls "body";
  items ← iter_ast_items body;
  mapM (fun method => v ← getattr method "name"; to_set_item v)
       (List.filter (fun m => isinstance m ["FunctionDef"]) items).

Definition class_methods (tree : node) : result (gset string) :=
  names ← mapM method_names
               (List.filter (fun n => isinstance n ["ClassDef"]) (walk tree));
  mret (list_to_set (concat names)).

(** The score record: a dict in insertion order. *)
Definition scores_t : Type := list (string * Q).

Fixpoint dict_get (key : string) (d : scores_t) : option Q :=
  match d with
  | [] => None
  | (k, v) :: rest => if String.eqb k key then Some v else dict_get key rest
  end.

(** [sum(f(node) for node in ast.walk(tree))] *)
Definition sum_over_walk (f : node -> result Q) (tree : node) : result Q :=
  vals ← mapM f (walk tree); mret (py_sum vals).

(** The body of [analyze_file] once the tree is parsed. *)
Definition analyze_tree (tree : node) : result (scores_t * Q) :=
  class_names ← class_names tree;
  global_vars ← global_vars tree;
  class_methods ← class_methods tree;
  let cyclomatic_complexity := calculate_cyclomatic_complexity tree in
  let nesting_depth := calculate_nesting_depth tree 0 in
  function_length ← sum_over_walk calculate_function_length tree;
  parameter_count ← sum_over_walk calculate_parameter_count tree;
  class_coupling ←
    sum_over_walk (fun n => calculate_class_coupling n class_names) tree;
  cohesion ← sum_over_walk calculate_cohesion tree;
  global_variable_usage ← calculate_global_variable_usage tree global_vars;
  inheritance_depth ← calculate_inheritance_depth tree 0;
  number_of_interfaces ← sum_over_walk calculate_number_of_interfaces tree;
  polymorphism ←
    sum_over_walk (fun n => calculate_polymorphism n class_methods) tree;
  let import_complexity := calculate_import_complexity tree in
  let scores : scores_t :=
    [ ("cyclomatic_complexity", cyclomatic_complexity);
      ("nesting_depth", nesting_depth);
      ("function_length", function_length);
      ("parameter_count", parameter_count);
      ("class_coupling", class_coupling);
      ("cohesion", cohesion);
      ("global_variable_usage", global_variable_usage);
      ("inheritance_depth", inheritance_depth);
      ("number_of_interfaces", number_of_interfaces);
      ("polymorphism", polymorphism);
      ("calculate_import_complexity", import_complexity) ] in
  let total_score := (py_sum (map snd scores) / Qnat (length scores))%Q in
  mret (scores, total_score).

Section analyze.
(** [ast.parse]: source text to tree, or the parser's exception. *)
Variable ast_parse : string -> result node.

(** [fs path] is what [Path(path).open("r").read()] gives: the text of
    the file, or the exception raised by opening or reading it. *)
Definition analyze_file (fs : string -> result string) (input_path : string)
    : result (scores_t * Q) :=
  source ← fs input_path;
  tree ← ast_parse source;
  analyze_tree tree.
End analyze.

(** ** Sample trees

    Constructors for the node classes the samples use, with the fields
    [ast.parse] gives them (positions and end positions are attributes, not
    fields, and are not traversed). *)

Definition ast_Module (body : list node) : node :=
  Node "Module" [("body", VList body); ("type_ignores", VList [])].
Definition ast_Load : node := Node "Load" [].
Definition ast_Name (id : string) (ctx : node) : node :=
  Node "Name" [("id", VStr id); ("ctx", VNode ctx)].
Definition ast_Attribute (v : node) (attr : string) (ctx : node) : node :=
  Node "Attribute" [("value", VNode v); ("attr", VStr attr); ("ctx", VNode ctx)].
Definition ast_Expr (v : node) : node := Node "Expr" [("value", VNode v)].
Definition ast_Pass : node := Node "Pass" [].
Definition ast_If (test : node) (body orelse : list node) : node :=
  Node "If" [("test", VNode test); ("body", VList body); ("orelse", VList orelse)].
Definition ast_Global (names : list string) : node :=
  Node "Global" [("names", VStrList names)].
Definition ast_arg (name : string) : node :=
  Node "arg" [("arg", VStr name); ("annotation", VNone); ("type_comment", VNone)].
Definition ast_arguments (args : list node) : node :=
  Node "arguments"
    [("posonlyargs", VList []); ("args", VList args); ("vararg", VNone);
     ("kwonlyargs", VList []); ("kw_defaults", VList []); ("kwarg", VNone);
     ("defaults", VList [])].
Definition ast_FunctionDef (name : string) (args : node) (body : list node) : node :=
  Node "FunctionDef"
    [("name", VStr name); ("args", VNode args); ("body", VList body);
     ("decorator_list", VList []); ("returns", VNone); ("type_comment", VNone)].
Definition ast_ClassDef (name : string) (bases body : list node) : node :=
  Node "ClassDef"
    [("name", VStr name); ("bases", VList bases); ("keywords", VList []);
     ("body", VList body); ("decorator_list", VList [])].

(** The empty file. *)
Definition empty_module : node := ast_Module [].

(** [global x] *)
Definition global_module : node := ast_Module [ast_Global ["x"]].

(** Ten times [if a: pass]. *)
Definition ten_ifs : node :=
  ast_Module (repeat (ast_If (ast_Name "a" ast_Load) [ast_Pass] []) 10).

(** [def name(): pass; ...; pass] with [k] statements. *)
Definition passes_def (name : string) (k : nat) : node :=
  ast_FunctionDef name (ast_arguments []) (repeat ast_Pass k).

Definition one_long_function : node := ast_Module [passes_def "f" 51].
Definition two_functions : node := ast_Module [passes_def "f" 51; passes_def "g" 10].

(** [def name(self): self.x] *)
Definition reads_x (name : string) : node :=
  ast_FunctionDef name (ast_arguments [ast_arg "self"])
    [ast_Expr (ast_Attribute (ast_Name "self" ast_Load) "x" ast_Load)].

(** [class C:] with two methods that both read [self.x]. *)
Definition shared_attr_class : node := ast_ClassDef "C" [] [reads_x "f"; reads_x "g"].
Definition shared_attr_module : node := ast_Module [shared_attr_class].

(** ** Well-formed trees

    The shape [ast.parse] gives the node classes whose attributes the rules
    read.  [ast.Global] has the single field [names]. *)

Definition has_str (n : node) (name : string) : bool :=
  match lookup_field name (node_fields n) with Some (VStr _) => true | _ => false end.

Definition has_list (n : node) (name : string) : bool :=
  match lookup_field name (node_fields n) with Some (VList _) => true | _ => false end.

Definition node_ok (n : node) : bool :=
  if isinstance n ["ClassDef"] then
    has_str n "name" && has_list n "bases" && has_list n "body"
  else if isinstance n ["FunctionDef"] then
    has_str n "name" && has_list n "body" &&
    match lookup_field "args" (node_fields n) with
    | Some (VNode a) => has_list a "args"
    | _ => false
    end
  else if isinstance n ["Name"] then has_str n "id"
  else if isinstance n ["Attribute"] then has_str n "attr"
  else if isinstance n ["Global"] then
    match node_fields n with
    | [(k, VStrList _)] => String.eqb k "names"
    | _ => false
    end
  else true.

Definition well_formed (tree : node) : bool := forallb node_ok (walk tree).

(** The function definitions of a tree, in [ast.walk] order. *)
Definition function_defs (tree : node) : list node :=
  List.filter (fun n => isinstance n ["FunctionDef"]) (walk tree).

(** [len(node.body)] *)
Definition body_length (n : node) : result nat :=
  body ← getattr n "body"; py_len body.

(** The methods of a class: [n for n in node.body if isinstance(n,
    ast.FunctionDef)]. *)
Definition direct_methods (cls : node) : result (list node) :=
  body ← getattr cls "body";
  items ← iter_ast_items body;
  mret (List.filter (fun m => isinstance m ["FunctionDef"]) items).

(** ** A sample file system and an excerpt of the parser

    [sample_parse] agrees with [ast.parse] on the texts it lists; any other
    text is treated as rejected. *)

Definition nl : string := String (Ascii.ascii_of_nat 10) EmptyString.

Definition global_source : string := String.append "global x" nl.
Definition broken_source : string := String.append "def" nl.

Definition sample_parse (source : string) : result node :=
  if String.eqb source "" then Ok empty_module
  else if String.eqb source global_source then Ok global_module
  else Raise (SyntaxError "invalid syntax").

Definition sample_fs (path : string) : result string :=
  if String.eqb path "empty.py" then Ok ""
  else if String.eqb path "also_empty.py" then Ok ""
  else if String.eqb path "global.py" then Ok global_source
  else if String.eqb path "broken.py" then Ok broken_source
  else Raise (OSError "No such file or directory").

(** The keys of the score record, in insertion order. *)
Definition score_keys : list string :=
  [ "cyclomatic_complexity"; "nesting_depth"; "function_length";
    "parameter_count"; "class_coupling"; "cohesion"; "global_variable_usage";
    "inheritance_depth"; "number_of_interfaces"; "polymorphism";
    "calculate_import_complexity" ].

(** ** More sample trees and counts *)

Definition ast_alias (name : string) : node :=
  Node "alias" [("name", VStr name); ("asname", VNone)].
Definition ast_Import (names : list node) : node :=
  Node "Import" [("names", VList names)].

(** [if a:] nested three deep, then [pass]. *)
Definition nested_ifs : node :=
  ast_Module
    [ast_If (ast_Name "a" ast_Load)
       [ast_If (ast_Name "a" ast_Load)
          [ast_If (ast_Name "a" ast_Load) [ast_Pass] []] []] []].

(** [class D(A, B): pass] *)
Definition derived_class : node :=
  ast_ClassDef "D" [ast_Name "A" ast_Load; ast_Name "B" ast_Load] [ast_Pass].
Definition derived_module : node := ast_Module [derived_class].

(** [x = 1]-free module of one expression statement [a]. *)
Definition plain_module : node := ast_Module [ast_Expr (ast_Name "a" ast_Load)].

(** Twenty-one times [import os]. *)
Definition many_imports : node :=
  ast_Module (repeat (ast_Import [ast_alias "os"]) 21).

(** [class C:] whose body is the expression [C]. *)
Definition self_ref_class : node :=
  ast_ClassDef "C" [] [ast_Expr (ast_Name "C" ast_Load)].
Definition self_ref_module : node := ast_Module [self_ref_class].

(** The control-flow nodes of a tree, as the cyclomatic rule tests them. *)
Definition control_nodes (tree : node) : list node :=
  List.filter
    (fun n => isinstance n ["If"; "For"; "While"; "With"; "Try"; "ExceptHandler"])
    (walk tree).

(** The import statements of a tree. *)
Definition import_nodes (tree : node) : list node :=
  List.filter (fun n => isinstance n ["Import"; "ImportFrom"]) (walk tree).

(** The class definitions of a tree. *)
Definition class_defs (tree : node) : list node :=
  List.filter (fun n => isinstance n ["ClassDef"]) (walk tree).

(** A class definition with at least one function defined in its body. *)
Definition has_methods (n : node) : bool :=
  isinstance n ["ClassDef"] &&
  match direct_methods n with
  | Ok (_ :: _) => true
  | _ => false
  end.

(** One iteration of [max_depth = max(max_depth, f(child))] in the error
    monad, as in the loop of [calculate_inheritance_depth]. *)
Definition max_step (f : node -> result Q) (acc : result Q) (child : node) : result Q :=
  max_depth ← acc; d ← f child; mret (Qmax max_depth d).

(** ** The recursive rules under the interpreter's limit on nested calls

    Each of the three recursive rules takes one interpreter frame per level
    of the tree.  [frames] is the number of nested activations of the rule
    the interpreter still allows where [analyze_file] calls it; an
    activation attempted with none left raises [RecursionError]. *)

(** Number of levels of a tree. *)
Fixpoint height (n : node) : nat :=
  match n with
  | Node _ fields => S (for_children fields (fun acc c => Nat.max acc (height c)) 0)
  end.

(** One iteration of [complexity += f(child)] in the error monad. *)
Definition add_step (f : node -> result Q) (acc : result Q) (child : node) : result Q :=
  complexity ← acc; c ← f child; mret (complexity + c)%Q.

Fixpoint calculate_cyclomatic_complexity_within (frames : nat) (n : node) : result Q :=
  match frames with
  | O => Raise RecursionError
  | S frames =>
    let complexity := 0%Q in
    let complexity :=
      if isinstance n ["If"; "For"; "While"; "With"; "Try"; "ExceptHandler"]
      then (complexity + 1)%Q else complexity in
    complexity ←
      fold_left (add_step (calculate_cyclomatic_complexity_within frames))
                (iter_child_nodes n) (mret complexity);
    mret (Qmin (complexity / 10) 1)
  end.

Fixpoint calculate_nesting_depth_within (frames : nat) (n : node) (current_depth : Q)
    : result Q :=
  match frames with
  | O => Raise RecursionError
  | S frames =>
    let current_depth :=
      if isinstance n ["If"; "For"; "While"; "With"; "Try"]
      then (current_depth + 1)%Q else current_depth in
    let max_depth := current_depth in
    max_depth ←
      fold_left
        (max_step (fun child => calculate_nesting_depth_within frames child current_depth))
        (iter_child_nodes n) (mret max_depth);
    mret (Qmin (max_depth / 5) 1)
  end.

Fixpoint calculate_inheritance_depth_within (frames : nat) (n : node) (depth : Q)
    : result Q :=
  match frames with
  | O => Raise RecursionError
  | S frames =>
    depth ← (if isinstance n ["ClassDef"] then
               bases ← getattr n "bases";
               len ← py_len bases;
               mret (depth + Qnat len)%Q
             else mret depth);
    let max_depth := depth in
    max_depth ←
      fold_left
        (max_step (fun child => calculate_inheritance_depth_within frames child depth))
        (iter_child_nodes n) (mret max_depth);
    mret (Qmin (max_depth / 5) 1)
  end.

(** The body of [analyze_file] once the tree is parsed, with [frames]
    nested activations available to each recursive rule.  The entries of
    the dict are evaluated in the order they are written. *)
Definition analyze_tree_within (frames : nat) (tree : node) : result (scores_t * Q) :=
  class_names ← class_names tree;
  global_vars ← global_vars tree;
  class_methods ← class_methods tree;
  cyclomatic_complexity ← calculate_cyclomatic_complexity_within frames tree;
  nesting_depth ← calculate_nesting_depth_within frames tree 0;
  function_length ← sum_over_walk calculate_function_length tree;
  parameter_count ← sum_over_walk calculate_parameter_count tree;
  class_coupling ←
    sum_over_walk (fun n => calculate_class_coupling n class_names) tree;
  cohesion ← sum_over_walk calculate_cohesion tree;
  global_variable_usage ← calculate_global_variable_usage tree global_vars;
  inheritance_depth ← calculate_inheritance_depth_within frames tree 0;
  number_of_interfaces ← sum_over_walk calculate_number_of_interfaces tree;
  polymorphism ←
    sum_over_walk (fun n => calculate_polymorphism n class_methods) tree;
  let import_complexity := calculate_import_complexity tree in
  let scores : scores_t :=
    [ ("cyclomatic_complexity", cyclomatic_complexity);
      ("nesting_depth", nesting_depth);
      ("function_length", function_length);
      ("parameter_count", parameter_count);
      ("class_coupling", class_coupling);
      ("cohesion", cohesion);
      ("global_variable_usage", global_variable_usage);
      ("inheritance_depth", inheritance_depth);
      ("number_of_interfaces", number_of_interfaces);
      ("polymorphism", polymorphism);
      ("calculate_import_complexity", import_complexity) ] in
  let total_score := (py_sum (map snd scores) / Qnat (length scores))%Q in
  mret (scores, total_score).

(** [pass] nested [k] levels deep in [if a:] statements. *)
Fixpoint deep_ifs (k : nat) : node :=
  match k with
  | O => ast_Pass
  | S k => ast_If (ast_Name "a" ast_Load) [deep_ifs k] []
  end.

(** ** The two rules as the specification words them

    These follow the specification's table, not the source; they are
    compared with the source's rules on sample trees. *)

(** Count of Conditional/Loop/WithBlock/TryBlock/ExceptionHandler nodes
    across the whole tree, divided by 10 once, capped at 1. *)
Definition spec_cyclomatic_complexity (tree : node) : Q :=
  let count :=
    length (List.filter
              (fun n => isinstance n ["If"; "For"; "While"; "With"; "Try"; "ExceptHandler"])
              (walk tree)) in
  Qmin (Qnat count / 10) 1.

(** The attribute-access names anywhere in a subtree. *)
Definition attribute_names (n : node) : list string :=
  flat_map (fun a =>
              if isinstance a ["Attribute"] then
                match lookup_field "attr" (node_fields a) with
                | Some (VStr s) => [s]
                | _ => []
                end
              else [])
           (walk n).

(** For a class with at least one method, [1 - shared / methodCount], where
    [shared] counts the methods that contain an attribute access whose name
    is in the set of attribute-access names of the class subtree; 0 for a
    class without methods. *)
Definition spec_cohesion (cls : node) : Q :=
  match direct_methods cls with
  | Ok (m :: ms) =>
    let attrs : gset string := list_to_set (attribute_names cls) in
    let shared :=
      length (List.filter
                (fun method =>
                   existsb (fun s => bool_decide (s ∈ attrs)) (attribute_names method))
                (m :: ms)) in
    (1 - Qnat shared / Qnat (length (m :: ms)))%Q
  | _ => 0%Q
  end.

(** ** The error monad: basic facts *)

Lemma bind_Ok {A B : Type} (m : result A) (f : A -> result B) (a : A) :
  m = Ok a -> (m ≫= f) = f a.
Proof. intros ->. reflexivity. Qed.

Lemma bind_Raise {A B : Type} (m : result A) (f : A -> result B) (e : exn) :
  m = Raise e -> (m ≫= f) = Raise e.
Proof. intros ->. reflexivity. Qed.

Lemma bind_Ok_inv {A B : Type} (m : result A) (f : A -> result B) (b : B) :
  (m ≫= f) = Ok b -> exists a, m = Ok a /\ f a = Ok b.
Proof. destruct m as [a|e]; [eauto | discriminate]. Qed.

Lemma mapM_cons {A B : Type} (f : A -> result B) (x : A) (l : list A) :
  mapM f (x :: l) = (y ← f x; k ← mapM f l; mret (y :: k)).
Proof. reflexivity. Qed.

Lemma mapM_Ok_inv {A B : Type} (f : A -> result B) (l : list A) (ys : list B) :
  mapM f l = Ok ys -> Forall2 (fun x y => f x = Ok y) l ys.
Proof.
  revert ys. induction l as [|x l IH]; intros ys H.
  - inversion H. constructor.
  - rewrite mapM_cons in H.
    apply bind_Ok_inv in H as (y & Hy & H).
    apply bind_Ok_inv in H as (k & Hk & H).
    inversion H; subst. constructor; auto.
Qed.

Lemma mapM_Ok_intro {A B : Type} (f : A -> result B) (l : list A) (ys : list B) :
  Forall2 (fun x y => f x = Ok y) l ys -> mapM f l = Ok ys.
Proof.
  induction 1 as [|x y l ys Hxy _ IH]; [reflexivity|].
  rewrite mapM_cons, (bind_Ok _ _ _ Hxy), (bind_Ok _ _ _ IH). reflexivity.
Qed.

Lemma mapM_total {A B : Type} (f : A -> result B) (l : list A) :
  Forall (fun x => exists y, f x = Ok y) l -> exists ys, mapM f l = Ok ys.
Proof.
  induction 1 as [|x l [y Hy] _ [ys IH]]; [exists []; reflexivity|].
  exists (y :: ys). rewrite mapM_cons, (bind_Ok _ _ _ Hy), (bind_Ok _ _ _ IH).
  reflexivity.
Qed.

Lemma mapM_head_Raise {A B : Type} (f : A -> result B) (x : A) (l : list A) (e : exn) :
  f x = Raise e -> mapM f (x :: l) = Raise e.
Proof. intros H. rewrite mapM_cons. apply bind_Raise, H. Qed.

Lemma mapM_ext_in {A B : Type} (f g : A -> result B) (l : list A) :
  (forall x, In x l -> f x = g x) -> mapM f l = mapM g l.
Proof.
  induction l as [|x l IH]; intros H; [reflexivity|].
  rewrite !mapM_cons, (H x (or_introl eq_refl)), IH; [reflexivity|].
  intros y Hy. apply H. right. exact Hy.
Qed.

(** ** Traversals *)

Lemma for_children_eq {A : Type} (body : A -> node -> A) (n : node) (init : A) :
  for_children (node_fields n) body init = fold_left body (iter_child_nodes n) init.
Proof.
  unfold for_children, iter_child_nodes. revert init.
  induction (node_fields n) as [|[k v] fs IH]; intros init; simpl; [reflexivity|].
  rewrite fold_left_app, IH. destruct v; reflexivity.
Qed.

Definition total_size (ns : list node) : nat := fold_left (fun acc c => acc + size c) ns 0.

Lemma fold_left_add_size (ns : list node) (a : nat) :
  fold_left (fun acc c => acc + size c) ns a = a + total_size ns.
Proof.
  unfold total_size. revert a. induction ns as [|c ns IH]; intros a; simpl; [lia|].
  rewrite IH, (IH (size c)). lia.
Qed.

Lemma total_size_cons (c : node) (ns : list node) :
  total_size (c :: ns) = size c + total_size ns.
Proof. unfold total_size at 1. simpl. apply fold_left_add_size. Qed.

Lemma total_size_app (l1 l2 : list node) :
  total_size (l1 ++ l2) = total_size l1 + total_size l2.
Proof.
  induction l1 as [|c l1 IH]; [reflexivity|].
  simpl. rewrite !total_size_cons, IH. lia.
Qed.

Lemma size_eq (n : node) : size n = S (total_size (iter_child_nodes n)).
Proof. destruct n as [cls fields]. simpl. f_equal. apply (for_children_eq _ (Node cls fields)). Qed.

Lemma size_pos (n : node) : 0 < size n.
Proof. rewrite size_eq. lia. Qed.

Lemma size_child (n c : node) : In c (iter_child_nodes n) -> size c < size n.
Proof.
  rewrite (size_eq n). generalize (iter_child_nodes n) as l.
  induction l as [|x l IH]; intros H; [destruct H|].
  rewrite total_size_cons. destruct H as [->|H]; [lia|]. specialize (IH H). lia.
Qed.

(** Induction on a tree: a property holds of a node when it holds of the
    nodes [ast.iter_child_nodes] yields for it. *)
Lemma node_children_ind (P : node -> Prop) :
  (forall n, Forall P (iter_child_nodes n) -> P n) -> forall n, P n.
Proof.
  intros step n.
  assert (H : forall k m, size m < k -> P m).
  { induction k as [|k IH]; intros m Hm; [lia|].
    apply step. apply List.Forall_forall. intros c Hc.
    apply IH. apply size_child in Hc. lia. }
  apply (H (S (size n))). lia.
Qed.

Lemma fold_left_app_preorder (ns : list node) (acc : list node) :
  fold_left (fun acc c => acc ++ preorder c) ns acc = acc ++ flat_map preorder ns.
Proof.
  revert acc. induction ns as [|c ns IH]; intros acc; simpl.
  - symmetry. apply app_nil_r.
  - rewrite IH. symmetry. apply app_assoc.
Qed.

Lemma preorder_eq (n : node) :
  preorder n = n :: flat_map preorder (iter_child_nodes n).
Proof.
  destruct n as [cls fields]. simpl. f_equal.
  rewrite (for_children_eq _ (Node cls fields)). apply fold_left_app_preorder.
Qed.

(** The queue loop visits exactly the nodes of the queued trees, once each,
    when it is given one iteration per node. *)
Lemma walk_loop_preorder (fuel : nat) (todo : list node) :
  total_size todo <= fuel ->
  Permutation (walk_loop fuel todo) (flat_map preorder todo).
Proof.
  revert todo. induction fuel as [|fuel IH]; intros todo Hfuel.
  - destruct todo as [|n rest]; [constructor|].
    rewrite total_size_cons in Hfuel. pose proof (size_pos n). lia.
  - destruct todo as [|n rest]; [constructor|].
    cbn [walk_loop flat_map]. rewrite preorder_eq. cbn [app].
    constructor.
    etransitivity.
    + apply IH. rewrite total_size_app. rewrite total_size_cons, size_eq in Hfuel. lia.
    + rewrite flat_map_app. apply Permutation_app_comm.
Qed.

Lemma walk_preorder (n : node) : Permutation (walk n) (preorder n).
Proof.
  unfold walk. etransitivity.
  - apply walk_loop_preorder. rewrite total_size_cons. unfold total_size. simpl. lia.
  - simpl. rewrite app_nil_r. reflexivity.
Qed.

Lemma walk_root (n : node) : In n (walk n).
Proof.
  apply (Permutation_in _ (Permutation_sym (walk_preorder n))).
  rewrite preorder_eq. left. reflexivity.
Qed.

Lemma preorder_child (n c x : node) :
  In c (iter_child_nodes n) -> In x (preorder c) -> In x (preorder n).
Proof.
  intros Hc Hx. rewrite (preorder_eq n). right.
  apply in_flat_map. exists c. split; assumption.
Qed.

Lemma preorder_trans (n : node) :
  forall m x, In m (preorder n) -> In x (preorder m) -> In x (preorder n).
Proof.
  induction n as [n IH] using node_children_ind.
  intros m x Hm Hx. rewrite preorder_eq in Hm. destruct Hm as [<-|Hm]; [exact Hx|].
  apply in_flat_map in Hm as (c & Hc & Hm).
  apply (preorder_child n c x Hc).
  rewrite List.Forall_forall in IH. exact (IH c Hc m x Hm Hx).
Qed.

(** [ast.walk] of a visited node visits only nodes that the walk of the
    whole tree visits. *)
Lemma walk_trans (tree m x : node) :
  In m (walk tree) -> In x (walk m) -> In x (walk tree).
Proof.
  intros Hm Hx.
  apply (Permutation_in _ (Permutation_sym (walk_preorder tree))).
  apply (preorder_trans tree m x).
  - apply (Permutation_in _ (walk_preorder tree)), Hm.
  - apply (Permutation_in _ (walk_preorder m)), Hx.
Qed.

Lemma walk_child (n c : node) : In c (iter_child_nodes n) -> In c (walk n).
Proof.
  intros Hc. apply (Permutation_in _ (Permutation_sym (walk_preorder n))).
  apply (preorder_child n c c Hc). rewrite preorder_eq. left. reflexivity.
Qed.

(** ** Concrete runs *)

Ltac bind_inv H :=
  let a := fresh "a" in
  let Ha := fresh "Ha" in
  apply bind_Ok_inv in H as (a & Ha & H).

Lemma analyze_tree_keys (tree : node) (scores : scores_t) (total : Q) :
  analyze_tree tree = Ok (scores, total) -> map fst scores = score_keys.
Proof.
  intros H. unfold analyze_tree in H.
  do 11 bind_inv H.
  inversion H; subst. reflexivity.
Qed.

Lemma analyze_empty_module :
  exists scores total,
    analyze_tree empty_module = Ok (scores, total) /\
    length scores = 11 /\
    Forall (fun kv => snd kv == 0)%Q scores /\
    (total == 0)%Q.
Proof.
  eexists _, _. split; [vm_compute; reflexivity|].
  split; [reflexivity|]. split; [|reflexivity].
  repeat constructor.
Qed.

(** ** Shapes of well-formed nodes *)

Lemma isinstance_single (n : node) (c : string) :
  isinstance n [c] = true <-> node_class n = c.
Proof.
  unfold isinstance. simpl. rewrite orb_false_r. apply String.eqb_eq.
Qed.

Lemma well_formed_node (tree n : node) :
  well_formed tree = true -> In n (walk tree) -> node_ok n = true.
Proof.
  unfold well_formed. rewrite List.forallb_forall. intros H Hn. apply H, Hn.
Qed.

Lemma well_formed_sub (tree n : node) :
  well_formed tree = true -> In n (walk tree) -> well_formed n = true.
Proof.
  intros H Hn. unfold well_formed. apply List.forallb_forall. intros x Hx.
  apply (well_formed_node tree); [exact H|]. exact (walk_trans tree n x Hn Hx).
Qed.

Lemma has_str_getattr (n : node) (name : string) :
  has_str n name = true -> exists s, getattr n name = Ok (VStr s).
Proof.
  unfold has_str, getattr. destruct (lookup_field name (node_fields n)) as [[]|];
    try discriminate. eauto.
Qed.

Lemma has_list_getattr (n : node) (name : string) :
  has_list n name = true -> exists ns, getattr n name = Ok (VList ns).
Proof.
  unfold has_list, getattr. destruct (lookup_field name (node_fields n)) as [[]|];
    try discriminate. eauto.
Qed.

Lemma node_ok_ClassDef (n : node) :
  node_ok n = true -> isinstance n ["ClassDef"] = true ->
  (exists s, getattr n "name" = Ok (VStr s)) /\
  (exists bases, getattr n "bases" = Ok (VList bases)) /\
  (exists body, getattr n "body" = Ok (VList body)).
Proof.
  intros Hok Hc. unfold node_ok in Hok. rewrite Hc in Hok.
  apply andb_prop in Hok as [Hok Hbody]. apply andb_prop in Hok as [Hname Hbases].
  auto using has_str_getattr, has_list_getattr.
Qed.

Lemma node_ok_FunctionDef (n : node) :
  node_ok n = true -> isinstance n ["FunctionDef"] = true ->
  (exists s, getattr n "name" = Ok (VStr s)) /\
  (exists body, getattr n "body" = Ok (VList body)) /\
  (exists a args, getattr n "args" = Ok (VNode a) /\ getattr a "args" = Ok (VList args)).
Proof.
  intros Hok Hc. apply isinstance_single in Hc.
  destruct n as [cls fields]. simpl in Hc. subst cls.
  unfold node_ok in Hok. cbn [isinstance node_class existsb] in Hok.
  change (String.eqb "FunctionDef" "ClassDef") with false in Hok.
  change (String.eqb "FunctionDef" "FunctionDef") with true in Hok.
  cbn [orb] in Hok.
  apply andb_prop in Hok as [Hok Hargs]. apply andb_prop in Hok as [Hname Hbody].
  split; [auto using has_str_getattr|]. split; [auto using has_list_getattr|].
  unfold getattr at 1. cbn [node_fields] in *.
  destruct (lookup_field "args" fields) as [[a| | | | |]|]; try discriminate.
  apply has_list_getattr in Hargs as [args Hargs]. eauto.
Qed.

Lemma node_ok_Name (n : node) :
  node_ok n = true -> isinstance n ["Name"] = true ->
  exists s, getattr n "id" = Ok (VStr s).
Proof.
  intros Hok Hc. apply isinstance_single in Hc.
  destruct n as [cls fields]. simpl in Hc. subst cls.
  unfold node_ok in Hok. cbn [isinstance node_class existsb] in Hok.
  change (String.eqb "Name" "ClassDef") with false in Hok.
  change (String.eqb "Name" "FunctionDef") with false in Hok.
  change (String.eqb "Name" "Name") with true in Hok.
  cbn [orb] in Hok. auto using has_str_getattr.
Qed.

Lemma node_ok_Attribute (n : node) :
  node_ok n = true -> isinstance n ["Attribute"] = true ->
  exists s, getattr n "attr" = Ok (VStr s).
Proof.
  intros Hok Hc. apply isinstance_single in Hc.
  destruct n as [cls fields]. simpl in Hc. subst cls.
  unfold node_ok in Hok. cbn [isinstance node_class existsb] in Hok.
  change (String.eqb "Attribute" "ClassDef") with false in Hok.
  change (String.eqb "Attribute" "FunctionDef") with false in Hok.
  change (String.eqb "Attribute" "Name") with false in Hok.
  change (String.eqb "Attribute" "Attribute") with true in Hok.
  cbn [orb] in Hok. auto using has_str_getattr.
Qed.

(** [ast.Global] has no attribute [id]. *)
Lemma node_ok_Global (n : node) :
  node_ok n = true -> isinstance n ["Global"] = true ->
  getattr n "id" = Raise (AttributeError "Global" "id").
Proof.
  intros Hok Hc. apply isinstance_single in Hc.
  destruct n as [cls fields]. simpl in Hc. subst cls.
  unfold node_ok in Hok. cbn [isinstance node_class existsb] in Hok.
  change (String.eqb "Global" "ClassDef") with false in Hok.
  change (String.eqb "Global" "FunctionDef") with false in Hok.
  change (String.eqb "Global" "Name") with false in Hok.
  change (String.eqb "Global" "Attribute") with false in Hok.
  change (String.eqb "Global" "Global") with true in Hok.
  cbn [orb node_fields] in Hok.
  destruct fields as [|[k v] rest]; [discriminate|].
  destruct v, rest; try discriminate.
  apply String.eqb_eq in Hok. subst k. reflexivity.
Qed.

(** ** Fact extraction *)

Lemma class_names_total (tree : node) :
  well_formed tree = true -> exists s, class_names tree = Ok s.
Proof.
  intros Hwf. unfold class_names.
  destruct (mapM_total (fun n => v ← getattr n "name"; to_set_item v)
              (List.filter (fun n => isinstance n ["ClassDef"]) (walk tree)))
    as [names Hnames].
  - apply List.Forall_forall. intros c Hc. apply List.filter_In in Hc as [Hc Hcls].
    destruct (node_ok_ClassDef c (well_formed_node tree c Hwf Hc) Hcls)
      as [[s Hs] _].
    exists s. rewrite (bind_Ok _ _ _ Hs). reflexivity.
  - rewrite (bind_Ok _ _ _ Hnames). eexists. reflexivity.
Qed.

(** The comprehension that builds [global_vars] reads [node.id] of the first
    [ast.Global] node it meets. *)
Lemma global_vars_raises (tree g : node) :
  well_formed tree = true ->
  In g (walk tree) -> isinstance g ["Global"] = true ->
  global_vars tree = Raise (AttributeError "Global" "id").
Proof.
  intros Hwf Hg Hcls. unfold global_vars.
  assert (Hin : In g (List.filter (fun n => isinstance n ["Global"]) (walk tree))).
  { apply List.filter_In. split; assumption. }
  destruct (List.filter (fun n => isinstance n ["Global"]) (walk tree))
    as [|g0 rest] eqn:Hf; [destruct Hin|].
  assert (H0 : In g0 (walk tree) /\ isinstance g0 ["Global"] = true).
  { apply (proj1 (List.filter_In (fun n => isinstance n ["Global"]) g0 (walk tree))).
    rewrite Hf. left. reflexivity. }
  destruct H0 as [Hg0 Hcls0].
  apply bind_Raise. apply mapM_head_Raise. apply bind_Raise.
  apply node_ok_Global; [|exact Hcls0].
  exact (well_formed_node tree g0 Hwf Hg0).
Qed.

Lemma global_vars_no_global (tree : node) :
  List.filter (fun n => isinstance n ["Global"]) (walk tree) = [] ->
  global_vars tree = Ok ∅.
Proof. intros H. unfold global_vars. rewrite H. reflexivity. Qed.

Lemma analyze_tree_global (tree g : node) :
  well_formed tree = true ->
  In g (walk tree) -> isinstance g ["Global"] = true ->
  analyze_tree tree = Raise (AttributeError "Global" "id").
Proof.
  intros Hwf Hg Hcls. unfold analyze_tree.
  destruct (class_names_total tree Hwf) as [cn Hcn].
  rewrite (bind_Ok _ _ _ Hcn).
  apply bind_Raise. exact (global_vars_raises tree g Hwf Hg Hcls).
Qed.

(** ** Claims *)

(** C1 (fails on the code): the analysis of a source text that parses into
    a well-formed tree containing a global-declaration statement does not
    complete; building [global_vars] raises [AttributeError] because
    [ast.Global] has no attribute [id]. *)
Theorem analyze_file_global_raises
    (ast_parse : string -> result node) (fs : string -> result string)
    (input_path source : string) (tree g : node) :
  fs input_path = Ok source ->
  ast_parse source = Ok tree ->
  well_formed tree = true ->
  In g (walk tree) -> isinstance g ["Global"] = true ->
  analyze_file ast_parse fs input_path = Raise (AttributeError "Global" "id").
Proof.
  intros Hfs Hparse Hwf Hg Hcls. unfold analyze_file.
  rewrite (bind_Ok _ _ _ Hfs), (bind_Ok _ _ _ Hparse).
  exact (analyze_tree_global tree g Hwf Hg Hcls).
Qed.

Lemma analyze_file_global_raises_witness :
  analyze_file sample_parse sample_fs "global.py"
  = Raise (AttributeError "Global" "id").
Proof.
  apply (analyze_file_global_raises sample_parse sample_fs "global.py"
           global_source global_module (ast_Global ["x"])).
  - reflexivity.
  - reflexivity.
  - reflexivity.
  - vm_compute. right. left. reflexivity.
  - reflexivity.
Defined.

(** C2 (fails on the code): for a file of ten top-level conditional
    statements the reported cyclomatic_complexity is 1/10, not 1: every
    level of the recursion divides by 10, so each conditional contributes
    1/10 to the count of the module, which is divided by 10 again.  The
    count of the whole tree divided by 10 once is 1 on this file. *)
Theorem ten_ifs_cyclomatic_complexity :
  exists scores total v,
    analyze_tree ten_ifs = Ok (scores, total) /\
    dict_get "cyclomatic_complexity" scores = Some v /\
    (v == 1 # 10)%Q /\ ~ (v == 1)%Q /\
    (spec_cyclomatic_complexity ten_ifs == 1)%Q.
Proof.
  eexists _, _, _. split; [vm_compute; reflexivity|].
  split; [reflexivity|]. split; [reflexivity|]. split; [discriminate|].
  vm_compute. reflexivity.
Qed.

(** C3 (fails on the code): the score record of every successful analysis
    has the key calculate_import_complexity for the import metric and no
    key import_complexity. *)
Theorem analyze_tree_import_key (tree : node) (scores : scores_t) (total : Q) :
  analyze_tree tree = Ok (scores, total) ->
  map fst scores = score_keys /\
  dict_get "import_complexity" scores = None /\
  dict_get "calculate_import_complexity" scores
  = Some (calculate_import_complexity tree).
Proof.
  intros H. split; [exact (analyze_tree_keys tree scores total H)|].
  unfold analyze_tree in H. do 11 bind_inv H.
  inversion H; subst. split; reflexivity.
Qed.

Lemma analyze_tree_import_key_witness :
  exists scores total,
    analyze_tree empty_module = Ok (scores, total) /\
    map fst scores = score_keys /\
    dict_get "import_complexity" scores = None /\
    dict_get "calculate_import_complexity" scores
    = Some (calculate_import_complexity empty_module).
Proof.
  eexists _, _. split; [vm_compute; reflexivity|].
  eapply (analyze_tree_import_key empty_module). vm_compute. reflexivity.
Defined.

(** C7: an empty source file, whose tree is a module with no statements,
    yields a score record of 11 entries that are all 0, and a total score
    of 0. *)
Theorem analyze_file_empty
    (ast_parse : string -> result node) (fs : string -> result string)
    (input_path : string) :
  fs input_path = Ok "" ->
  ast_parse "" = Ok empty_module ->
  exists scores total,
    analyze_file ast_parse fs input_path = Ok (scores, total) /\
    length scores = 11 /\
    Forall (fun kv => snd kv == 0)%Q scores /\
    (total == 0)%Q.
Proof.
  intros Hfs Hparse.
  destruct analyze_empty_module as (scores & total & H & Hrest).
  exists scores, total. split; [|exact Hrest].
  unfold analyze_file. rewrite (bind_Ok _ _ _ Hfs), (bind_Ok _ _ _ Hparse).
  exact H.
Qed.

Lemma analyze_file_empty_witness :
  exists scores total,
    analyze_file sample_parse sample_fs "empty.py" = Ok (scores, total) /\
    length scores = 11 /\
    Forall (fun kv => snd kv == 0)%Q scores /\
    (total == 0)%Q.
Proof.
  apply (analyze_file_empty sample_parse sample_fs "empty.py"); reflexivity.
Defined.

(** C8: when the source text fails to parse, the analysis returns the
    parser's exception to the caller; the outcome carries no score record. *)
Theorem analyze_file_parse_error
    (ast_parse : string -> result node) (fs : string -> result string)
    (input_path source : string) (e : exn) :
  fs input_path = Ok source ->
  ast_parse source = Raise e ->
  analyze_file ast_parse fs input_path = Raise e.
Proof.
  intros Hfs Hparse. unfold analyze_file.
  rewrite (bind_Ok _ _ _ Hfs). apply bind_Raise. exact Hparse.
Qed.

Lemma analyze_file_parse_error_witness :
  analyze_file sample_parse sample_fs "broken.py"
  = Raise (SyntaxError "invalid syntax").
Proof.
  apply (analyze_file_parse_error sample_parse sample_fs "broken.py" broken_source);
    reflexivity.
Defined.

(** ** Bounds of the whole-tree rules *)

Lemma Qnat_nonneg (n : nat) : (0 <= Qnat n)%Q.
Proof.
  unfold Qnat. change 0%Q with (inject_Z 0). rewrite <- Zle_Qle. lia.
Qed.

Lemma cap_bounds (x d : Q) :
  (0 <= x)%Q -> (0 < d)%Q -> (0 <= Qmin (x / d) 1)%Q /\ (Qmin (x / d) 1 <= 1)%Q.
Proof.
  intros Hx Hd. split; [|apply Q.le_min_r].
  apply Q.min_glb; [|discriminate].
  apply Qle_shift_div_l; [exact Hd|]. rewrite Qmult_0_l. exact Hx.
Qed.

Lemma calculate_cyclomatic_complexity_eq (n : node) :
  calculate_cyclomatic_complexity n =
  Qmin (fold_left (fun complexity child =>
                     (complexity + calculate_cyclomatic_complexity child)%Q)
                  (iter_child_nodes n)
                  (if isinstance n ["If"; "For"; "While"; "With"; "Try"; "ExceptHandler"]
                   then (0 + 1)%Q else 0%Q) / 10) 1.
Proof.
  destruct n as [cls fields]. cbn [calculate_cyclomatic_complexity].
  f_equal. f_equal. apply (for_children_eq _ (Node cls fields)).
Qed.

Lemma calculate_nesting_depth_eq (n : node) (current_depth : Q) :
  calculate_nesting_depth n current_depth =
  let current_depth :=
    if isinstance n ["If"; "For"; "While"; "With"; "Try"]
    then (current_depth + 1)%Q else current_depth in
  Qmin (fold_left (fun max_depth child =>
                     Qmax max_depth (calculate_nesting_depth child current_depth))
                  (iter_child_nodes n) current_depth / 5) 1.
Proof.
  destruct n as [cls fields]. cbn [calculate_nesting_depth]. cbv zeta.
  f_equal. f_equal. apply (for_children_eq _ (Node cls fields)).
Qed.

Lemma fold_left_Qplus_nonneg {A : Type} (f : A -> Q) (l : list A) (a : Q) :
  Forall (fun x => 0 <= f x)%Q l -> (0 <= a)%Q ->
  (0 <= fold_left (fun acc x => acc + f x) l a)%Q.
Proof.
  intros H. revert a. induction H as [|x l Hx _ IH]; intros a Ha; [exact Ha|].
  simpl. apply IH.
  apply (Qle_trans _ (0 + 0)); [discriminate|]. apply Qplus_le_compat; assumption.
Qed.

Lemma fold_left_Qmax_ge {A : Type} (g : A -> Q) (l : list A) (a : Q) :
  (a <= fold_left (fun m x => Qmax m (g x)) l a)%Q.
Proof.
  revert a. induction l as [|x l IH]; intros a; simpl; [apply Qle_refl|].
  eapply Qle_trans; [apply (Q.le_max_l a (g x))|apply IH].
Qed.

Lemma calculate_cyclomatic_complexity_bounds (n : node) :
  (0 <= calculate_cyclomatic_complexity n)%Q /\
  (calculate_cyclomatic_complexity n <= 1)%Q.
Proof.
  induction n as [n IH] using node_children_ind.
  rewrite calculate_cyclomatic_complexity_eq.
  apply cap_bounds; [|reflexivity].
  apply fold_left_Qplus_nonneg.
  - eapply List.Forall_impl; [|exact IH]. intros c [Hc _]. exact Hc.
  - destruct (isinstance n _); discriminate.
Qed.

Lemma calculate_nesting_depth_bounds (n : node) (current_depth : Q) :
  (0 <= current_depth)%Q ->
  (0 <= calculate_nesting_depth n current_depth)%Q /\
  (calculate_nesting_depth n current_depth <= 1)%Q.
Proof.
  intros Hd. rewrite calculate_nesting_depth_eq. cbv zeta.
  apply cap_bounds; [|reflexivity].
  eapply Qle_trans; [|apply fold_left_Qmax_ge].
  destruct (isinstance n _); [|exact Hd].
  apply (Qle_trans _ (0 + 0)); [discriminate|].
  apply Qplus_le_compat; [exact Hd|discriminate].
Qed.

Lemma calculate_import_complexity_bounds (tree : node) :
  (0 <= calculate_import_complexity tree)%Q /\
  (calculate_import_complexity tree <= 1)%Q.
Proof.
  unfold calculate_import_complexity.
  apply cap_bounds; [apply Qnat_nonneg|reflexivity].
Qed.

Lemma is_name_in_total (tree : node) (names : gset string) (child : node) :
  well_formed tree = true -> In child (walk tree) ->
  exists b, is_name_in names child = Ok b.
Proof.
  intros Hwf Hc. unfold is_name_in.
  destruct (isinstance child ["Name"]) eqn:Hcls; [|eexists; reflexivity].
  destruct (node_ok_Name child (well_formed_node tree child Hwf Hc) Hcls) as [s Hs].
  rewrite (bind_Ok _ _ _ Hs). eexists. reflexivity.
Qed.

Lemma calculate_global_variable_usage_total (tree : node) (names : gset string) :
  well_formed tree = true ->
  exists flags,
    mapM (is_name_in names) (walk tree) = Ok flags /\
    calculate_global_variable_usage tree names
    = Ok (Qmin (Qnat (py_sum_bool flags) / 10) 1).
Proof.
  intros Hwf.
  destruct (mapM_total (is_name_in names) (walk tree)) as [flags Hflags].
  - apply List.Forall_forall. intros c Hc. exact (is_name_in_total tree names c Hwf Hc).
  - exists flags. split; [exact Hflags|].
    unfold calculate_global_variable_usage. rewrite (bind_Ok _ _ _ Hflags). reflexivity.
Qed.

(** C6: for every tree, each of cyclomatic_complexity, nesting_depth,
    global_variable_usage and import_complexity is computed and lies in the
    closed interval from 0 to 1. *)
Theorem whole_tree_metrics_bounded (tree : node) (names : gset string) :
  well_formed tree = true ->
  ((0 <= calculate_cyclomatic_complexity tree)%Q /\
   (calculate_cyclomatic_complexity tree <= 1)%Q) /\
  ((0 <= calculate_nesting_depth tree 0)%Q /\
   (calculate_nesting_depth tree 0 <= 1)%Q) /\
  (exists v, calculate_global_variable_usage tree names = Ok v /\
             (0 <= v)%Q /\ (v <= 1)%Q) /\
  ((0 <= calculate_import_complexity tree)%Q /\
   (calculate_import_complexity tree <= 1)%Q).
Proof.
  intros Hwf.
  split; [apply calculate_cyclomatic_complexity_bounds|].
  split; [apply calculate_nesting_depth_bounds; discriminate|].
  split; [|apply calculate_import_complexity_bounds].
  destruct (calculate_global_variable_usage_total tree names Hwf)
    as (flags & _ & Hv).
  eexists. split; [exact Hv|].
  apply cap_bounds; [apply Qnat_nonneg|reflexivity].
Qed.

Lemma whole_tree_metrics_bounded_witness :
  well_formed shared_attr_module = true /\
  (exists v, calculate_global_variable_usage shared_attr_module {["self"]} = Ok v /\
             (0 <= v)%Q /\ (v <= 1)%Q).
Proof.
  split; [reflexivity|].
  apply (whole_tree_metrics_bounded shared_attr_module {["self"]}). reflexivity.
Defined.

(** ** Cohesion *)

Lemma py_any_of_node (attributes : gset string) (l : list node) :
  py_any_of (fun attr => set_contains attributes (VNode attr)) l = Ok false.
Proof. induction l as [|x l IH]; [reflexivity|]. simpl. exact IH. Qed.

Lemma mapM_const {A B : Type} (f : A -> result B) (b : B) (l : list A) :
  (forall x, f x = Ok b) -> mapM f l = Ok (map (fun _ => b) l).
Proof.
  intros H. induction l as [|x l IH]; [reflexivity|].
  rewrite mapM_cons, (bind_Ok _ _ _ (H x)), (bind_Ok _ _ _ IH). reflexivity.
Qed.

Lemma py_sum_bool_all_false {A : Type} (l : list A) :
  py_sum_bool (map (fun _ => false) l) = 0.
Proof. induction l as [|x l IH]; [reflexivity|exact IH]. Qed.

Lemma direct_methods_inv (cls : node) (methods : list node) :
  direct_methods cls = Ok methods ->
  exists body items,
    getattr cls "body" = Ok body /\ iter_ast_items body = Ok items /\
    methods = List.filter (fun m => isinstance m ["FunctionDef"]) items.
Proof.
  unfold direct_methods. intros H.
  apply bind_Ok_inv in H as (body & Hbody & H).
  apply bind_Ok_inv in H as (items & Hitems & H).
  inversion H. eauto.
Qed.

Lemma attributes_total (cls : node) :
  well_formed cls = true ->
  exists attrs,
    mapM (fun a => v ← getattr a "attr"; to_set_item v)
         (List.filter (fun a => isinstance a ["Attribute"]) (walk cls)) = Ok attrs.
Proof.
  intros Hwf. apply mapM_total. apply List.Forall_forall. intros a Ha.
  apply List.filter_In in Ha as [Ha Hcls].
  destruct (node_ok_Attribute a (well_formed_node cls a Hwf Ha) Hcls) as [s Hs].
  exists s. rewrite (bind_Ok _ _ _ Hs). reflexivity.
Qed.

(** No method counts as sharing: the value returned for a class with
    methods is [1 - 0 / len(methods)]. *)
Lemma calculate_cohesion_methods (cls : node) (methods : list node) :
  well_formed cls = true ->
  isinstance cls ["ClassDef"] = true ->
  direct_methods cls = Ok methods ->
  methods <> [] ->
  calculate_cohesion cls = Ok (1 - Qnat 0 / Qnat (length methods))%Q.
Proof.
  intros Hwf Hcls Hm Hne.
  apply direct_methods_inv in Hm as (body & items & Hbody & Hitems & ->).
  unfold calculate_cohesion. rewrite Hcls.
  rewrite (bind_Ok _ _ _ Hbody), (bind_Ok _ _ _ Hitems).
  destruct (List.filter (fun m => isinstance m ["FunctionDef"]) items)
    as [|m ms] eqn:Hf; [contradiction|].
  destruct (attributes_total cls Hwf) as [attrs Hattrs].
  rewrite (bind_Ok _ _ _ Hattrs).
  rewrite (bind_Ok _ _ _
             (mapM_const _ false (m :: ms)
                (fun method => py_any_of_node (list_to_set attrs) (walk method)))).
  rewrite py_sum_bool_all_false. reflexivity.
Qed.

(** C4 (fails on the code): every class definition with at least one method
    has cohesion term 1, whatever attributes its methods access: the
    membership test compares the visited nodes, not their attribute names,
    with the set of names, so no method ever counts as sharing. *)
Theorem calculate_cohesion_one (cls : node) (methods : list node) :
  well_formed cls = true ->
  isinstance cls ["ClassDef"] = true ->
  direct_methods cls = Ok methods ->
  methods <> [] ->
  exists v, calculate_cohesion cls = Ok v /\ (v == 1)%Q.
Proof.
  intros Hwf Hcls Hm Hne. eexists.
  split; [exact (calculate_cohesion_methods cls methods Hwf Hcls Hm Hne)|].
  change (Qnat 0) with 0%Q. unfold Qdiv. rewrite Qmult_0_l. reflexivity.
Qed.

Lemma calculate_cohesion_one_witness :
  exists v, calculate_cohesion shared_attr_class = Ok v /\ (v == 1)%Q.
Proof.
  apply (calculate_cohesion_one shared_attr_class [reads_x "f"; reads_x "g"]).
  - reflexivity.
  - reflexivity.
  - reflexivity.
  - discriminate.
Defined.

(** On the class whose two methods both read [self.x] the source's rule
    gives 1 where the rule as specified gives 0. *)
Example shared_attr_class_cohesion :
  exists v, calculate_cohesion shared_attr_class = Ok v /\ (v == 1)%Q /\
            ~ (v == 0)%Q /\ (spec_cohesion shared_attr_class == 0)%Q.
Proof.
  eexists. split; [vm_compute; reflexivity|]. split; [reflexivity|].
  split; [discriminate|]. vm_compute. reflexivity.
Qed.

(** ** Polymorphism *)

Lemma lookup_field_In (name : string) (fields : list (string * value)) (v : value) :
  lookup_field name fields = Some v -> In (name, v) fields.
Proof.
  induction fields as [|[k w] rest IH]; simpl; [discriminate|].
  destruct (String.eqb k name) eqn:Hk.
  - apply String.eqb_eq in Hk. intros [= ->]. left. subst. reflexivity.
  - intros H. right. exact (IH H).
Qed.

(** The items of a list field are children of the node. *)
Lemma getattr_list_child (n : node) (name : string) (items : list node) (m : node) :
  getattr n name = Ok (VList items) -> In m items -> In m (iter_child_nodes n).
Proof.
  unfold getattr. destruct (lookup_field name (node_fields n)) as [v|] eqn:Hl;
    [|discriminate].
  intros [= ->] Hm. unfold iter_child_nodes. apply in_flat_map.
  exists (name, VList items). split; [exact (lookup_field_In _ _ _ Hl)|exact Hm].
Qed.

Lemma direct_methods_walk (tree cls : node) (methods : list node) (m : node) :
  In cls (walk tree) -> direct_methods cls = Ok methods -> In m methods ->
  In m (walk tree) /\ isinstance m ["FunctionDef"] = true.
Proof.
  intros Hcls Hm Hin.
  apply direct_methods_inv in Hm as (body & items & Hbody & Hitems & ->).
  apply List.filter_In in Hin as [Hin Hf]. split; [|exact Hf].
  destruct body; inversion Hitems; subst; try destruct Hin.
  apply (walk_trans tree cls m Hcls). apply walk_child.
  exact (getattr_list_child cls "body" items m Hbody Hin).
Qed.

Lemma direct_methods_total (tree cls : node) :
  well_formed tree = true -> In cls (walk tree) ->
  isinstance cls ["ClassDef"] = true ->
  exists methods, direct_methods cls = Ok methods.
Proof.
  intros Hwf Hin Hcls.
  destruct (node_ok_ClassDef cls (well_formed_node tree cls Hwf Hin) Hcls)
    as (_ & _ & [body Hbody]).
  unfold direct_methods. rewrite (bind_Ok _ _ _ Hbody). eexists. reflexivity.
Qed.

Lemma method_names_eq (cls : node) :
  method_names cls =
  (methods ← direct_methods cls;
   mapM (fun method => v ← getattr method "name"; to_set_item v) methods).
Proof.
  unfold method_names, direct_methods.
  destruct (getattr cls "body") as [body|e]; [|reflexivity]. simpl.
  destruct (iter_ast_items body) as [items|e]; reflexivity.
Qed.

Lemma method_names_total (tree cls : node) :
  well_formed tree = true -> In cls (walk tree) ->
  isinstance cls ["ClassDef"] = true ->
  exists names, method_names cls = Ok names.
Proof.
  intros Hwf Hin Hcls.
  destruct (direct_methods_total tree cls Hwf Hin Hcls) as [methods Hm].
  rewrite method_names_eq, (bind_Ok _ _ _ Hm).
  apply mapM_total. apply List.Forall_forall. intros m Hmin.
  destruct (direct_methods_walk tree cls methods m Hin Hm Hmin) as [Hw Hf].
  destruct (node_ok_FunctionDef m (well_formed_node tree m Hwf Hw) Hf)
    as [[s Hs] _].
  exists s. rewrite (bind_Ok _ _ _ Hs). reflexivity.
Qed.

Lemma class_methods_total (tree : node) :
  well_formed tree = true -> exists s, class_methods tree = Ok s.
Proof.
  intros Hwf. unfold class_methods.
  destruct (mapM_total method_names
              (List.filter (fun n => isinstance n ["ClassDef"]) (walk tree)))
    as [names Hnames].
  - apply List.Forall_forall. intros c Hc. apply List.filter_In in Hc as [Hc Hcls].
    exact (method_names_total tree c Hwf Hc Hcls).
  - rewrite (bind_Ok _ _ _ Hnames). eexists. reflexivity.
Qed.

Lemma Forall2_In_l {A B : Type} (R : A -> B -> Prop) (l : list A) (k : list B) (x : A) :
  Forall2 R l k -> In x l -> exists y, In y k /\ R x y.
Proof.
  induction 1 as [|a b l k Hab _ IH]; intros Hx; [destruct Hx|].
  destruct Hx as [<-|Hx].
  - exists b. split; [left; reflexivity|exact Hab].
  - destruct (IH Hx) as (y & Hy & Hxy). exists y. split; [right; exact Hy|exact Hxy].
Qed.

(** The flat set contains the name of every method defined directly in a
    class of the tree. *)
Lemma class_methods_contains (tree cls m : node) (cm : gset string) (methods : list node) :
  class_methods tree = Ok cm ->
  In cls (walk tree) -> isinstance cls ["ClassDef"] = true ->
  direct_methods cls = Ok methods -> In m methods ->
  exists s, getattr m "name" = Ok (VStr s) /\ s ∈ cm.
Proof.
  intros Hcm Hin Hcls Hm Hmin. unfold class_methods in Hcm.
  apply bind_Ok_inv in Hcm as (names & Hnames & Hcm). inversion Hcm; subst cm.
  apply mapM_Ok_inv in Hnames.
  destruct (Forall2_In_l _ _ _ cls Hnames) as (ns & Hns & Hcn).
  { apply List.filter_In. split; assumption. }
  rewrite method_names_eq, (bind_Ok _ _ _ Hm) in Hcn.
  apply mapM_Ok_inv in Hcn.
  destruct (Forall2_In_l _ _ _ m Hcn Hmin) as (s & Hs & Hname).
  apply bind_Ok_inv in Hname as (v & Hv & Hitem).
  destruct v; try discriminate. inversion Hitem; subst.
  exists s. split; [exact Hv|].
  apply elem_of_list_to_set, list_elem_of_In, in_concat.
  exists ns. split; assumption.
Qed.

Lemma py_sum_bool_map {A : Type} (f : A -> bool) (l : list A) :
  py_sum_bool (map f l) = length (List.filter f l).
Proof.
  unfold py_sum_bool. induction l as [|x l IH]; [reflexivity|].
  simpl. destruct (f x); simpl; rewrite IH; reflexivity.
Qed.

Lemma is_method_in_flags (cm : gset string) (items : list node) :
  (forall m, In m items -> isinstance m ["FunctionDef"] = true ->
             exists s, getattr m "name" = Ok (VStr s) /\ s ∈ cm) ->
  mapM (is_method_in cm) items
  = Ok (map (fun m => isinstance m ["FunctionDef"]) items).
Proof.
  intros H. apply mapM_Ok_intro.
  induction items as [|x items IH]; constructor.
  - unfold is_method_in. destruct (isinstance x ["FunctionDef"]) eqn:Hx; [|reflexivity].
    destruct (H x (or_introl eq_refl) Hx) as (s & Hs & Hin).
    rewrite (bind_Ok _ _ _ Hs). simpl. f_equal. apply bool_decide_eq_true. exact Hin.
  - apply IH. intros m Hm. apply H. right. exact Hm.
Qed.

(** C10: for every class definition of a well-formed tree, the polymorphism
    term computed with the flat set of method names of the whole tree is
    [min(m / 5, 1)], where [m] is the number of functions defined directly
    in the body of that class. *)
Theorem calculate_polymorphism_counts_methods (tree cls : node) :
  well_formed tree = true ->
  In cls (walk tree) ->
  isinstance cls ["ClassDef"] = true ->
  exists cm methods,
    class_methods tree = Ok cm /\
    direct_methods cls = Ok methods /\
    calculate_polymorphism cls cm = Ok (Qmin (Qnat (length methods) / 5) 1).
Proof.
  intros Hwf Hin Hcls.
  destruct (class_methods_total tree Hwf) as [cm Hcm].
  destruct (direct_methods_total tree cls Hwf Hin Hcls) as [methods Hm].
  exists cm, methods. split; [exact Hcm|]. split; [exact Hm|].
  pose proof (class_methods_contains tree cls) as Hc.
  destruct (direct_methods_inv cls methods Hm)
    as (body & items & Hbody & Hitems & Heq).
  unfold calculate_polymorphism. rewrite Hcls.
  rewrite (bind_Ok _ _ _ Hbody), (bind_Ok _ _ _ Hitems).
  rewrite (bind_Ok _ _ _ (is_method_in_flags cm items
             (fun m Hmi Hf => Hc m cm methods Hcm Hin Hcls Hm
                (eq_ind_r (fun l => In m l)
                   (proj2 (List.filter_In _ m items) (conj Hmi Hf)) Heq)))).
  rewrite py_sum_bool_map, Heq. reflexivity.
Qed.

Lemma calculate_polymorphism_counts_methods_witness :
  exists cm methods,
    class_methods shared_attr_module = Ok cm /\
    direct_methods shared_attr_class = Ok methods /\
    calculate_polymorphism shared_attr_class cm
    = Ok (Qmin (Qnat (length methods) / 5) 1).
Proof.
  apply (calculate_polymorphism_counts_methods shared_attr_module shared_attr_class).
  - reflexivity.
  - vm_compute. right. left. reflexivity.
  - reflexivity.
Defined.

(** ** Function length *)

Lemma fold_left_Qplus_acc (xs : list Q) (a : Q) :
  (fold_left Qplus xs a == a + py_sum xs)%Q.
Proof.
  unfold py_sum. revert a. induction xs as [|x xs IH]; intros a; simpl.
  - ring.
  - rewrite (IH (a + x)%Q), (IH (0 + x)%Q). ring.
Qed.

Lemma py_sum_cons (x : Q) (xs : list Q) : (py_sum (x :: xs) == x + py_sum xs)%Q.
Proof.
  unfold py_sum at 1. simpl. rewrite fold_left_Qplus_acc. ring.
Qed.

(** The value of the rule on one node of a well-formed tree. *)
Lemma calculate_function_length_node (n : node) :
  node_ok n = true ->
  if isinstance n ["FunctionDef"] then
    exists len, body_length n = Ok len /\
                calculate_function_length n = Ok (Qmin (Qnat len / 50) 1)
  else calculate_function_length n = Ok 0%Q.
Proof.
  intros Hok. unfold calculate_function_length, body_length.
  destruct (isinstance n ["FunctionDef"]) eqn:Hf; [|reflexivity].
  destruct (node_ok_FunctionDef n Hok Hf) as (_ & [body Hbody] & _).
  rewrite !(bind_Ok _ _ _ Hbody). simpl. eexists. split; reflexivity.
Qed.

Lemma function_length_over (l : list node) :
  Forall (fun n => node_ok n = true) l ->
  exists vals lens,
    mapM calculate_function_length l = Ok vals /\
    mapM body_length (List.filter (fun n => isinstance n ["FunctionDef"]) l) = Ok lens /\
    (py_sum vals == py_sum (map (fun len => Qmin (Qnat len / 50) 1) lens))%Q.
Proof.
  induction 1 as [|n l Hn _ (vals & lens & Hvals & Hlens & Hsum)].
  - exists [], []. repeat split; reflexivity.
  - pose proof (calculate_function_length_node n Hn) as Hnode.
    cbn [List.filter]. destruct (isinstance n ["FunctionDef"]).
    + destruct Hnode as (len & Hlen & Hval).
      exists (Qmin (Qnat len / 50) 1 :: vals), (len :: lens).
      rewrite !mapM_cons, (bind_Ok _ _ _ Hval), (bind_Ok _ _ _ Hvals),
        (bind_Ok _ _ _ Hlen), (bind_Ok _ _ _ Hlens).
      repeat split. cbn [map]. rewrite !py_sum_cons, Hsum. reflexivity.
    + exists (0%Q :: vals), lens.
      rewrite mapM_cons, (bind_Ok _ _ _ Hnode), (bind_Ok _ _ _ Hvals).
      repeat split; [exact Hlens|]. rewrite py_sum_cons, Hsum. ring.
Qed.

(** The sum the analysis stores under function_length, over the function
    definitions of the tree. *)
Lemma function_length_walk_sum (tree : node) :
  well_formed tree = true ->
  exists v lens,
    sum_over_walk calculate_function_length tree = Ok v /\
    mapM body_length (function_defs tree) = Ok lens /\
    (v == py_sum (map (fun len => Qmin (Qnat len / 50) 1) lens))%Q /\
    (lens = [51] -> (v == 1)%Q) /\
    (lens = [51; 10] -> (v == 6 # 5)%Q).
Proof.
  intros Hwf.
  destruct (function_length_over (walk tree)) as (vals & lens & Hvals & Hlens & Hsum).
  { apply List.Forall_forall. intros n Hn. exact (well_formed_node tree n Hwf Hn). }
  exists (py_sum vals), lens.
  split; [unfold sum_over_walk; rewrite (bind_Ok _ _ _ Hvals); reflexivity|].
  split; [exact Hlens|]. split; [exact Hsum|].
  split; intros ->; rewrite Hsum; reflexivity.
Qed.

(** ** Totality on trees without global declarations

    Every step of the analysis returns on a well-formed tree, except the
    construction of [global_vars] when the tree has an [ast.Global] node. *)

Lemma sum_over_walk_total (f : node -> result Q) (tree : node) :
  (forall n, In n (walk tree) -> exists v, f n = Ok v) ->
  exists v, sum_over_walk f tree = Ok v.
Proof.
  intros H. unfold sum_over_walk.
  destruct (mapM_total f (walk tree)) as [vals Hvals];
    [apply List.Forall_forall; exact H|].
  rewrite (bind_Ok _ _ _ Hvals). eexists. reflexivity.
Qed.

Lemma calculate_function_length_total (n : node) :
  node_ok n = true -> exists v, calculate_function_length n = Ok v.
Proof.
  intros Hok. pose proof (calculate_function_length_node n Hok) as H.
  destruct (isinstance n ["FunctionDef"]); [|eauto].
  destruct H as (len & _ & H). eauto.
Qed.

Lemma calculate_parameter_count_total (n : node) :
  node_ok n = true -> exists v, calculate_parameter_count n = Ok v.
Proof.
  intros Hok. unfold calculate_parameter_count.
  destruct (isinstance n ["FunctionDef"]) eqn:Hf; [|eexists; reflexivity].
  destruct (node_ok_FunctionDef n Hok Hf) as (_ & _ & a & args & Ha & Hargs).
  rewrite (bind_Ok _ _ _ Ha). cbn [getattr_value]. rewrite (bind_Ok _ _ _ Hargs).
  eexists. reflexivity.
Qed.

Lemma calculate_class_coupling_total (tree n : node) (names : gset string) :
  well_formed tree = true -> In n (walk tree) ->
  exists v, calculate_class_coupling n names = Ok v.
Proof.
  intros Hwf Hn. unfold calculate_class_coupling.
  destruct (isinstance n ["ClassDef"]); [|eexists; reflexivity].
  destruct (mapM_total (is_name_in names) (walk n)) as [flags Hflags].
  - apply List.Forall_forall. intros c Hc.
    exact (is_name_in_total tree names c Hwf (walk_trans tree n c Hn Hc)).
  - rewrite (bind_Ok _ _ _ Hflags). eexists. reflexivity.
Qed.

Lemma calculate_cohesion_total (tree n : node) :
  well_formed tree = true -> In n (walk tree) ->
  exists v, calculate_cohesion n = Ok v.
Proof.
  intros Hwf Hn.
  destruct (isinstance n ["ClassDef"]) eqn:Hcls;
    [|unfold calculate_cohesion; rewrite Hcls; eexists; reflexivity].
  destruct (direct_methods_total tree n Hwf Hn Hcls) as [methods Hm].
  destruct methods as [|m ms].
  - apply direct_methods_inv in Hm as (body & items & Hbody & Hitems & Heq).
    unfold calculate_cohesion.
    rewrite Hcls, (bind_Ok _ _ _ Hbody), (bind_Ok _ _ _ Hitems), <- Heq.
    eexists. reflexivity.
  - eexists. apply (calculate_cohesion_methods n (m :: ms));
      [exact (well_formed_sub tree n Hwf Hn)|exact Hcls|exact Hm|discriminate].
Qed.

Lemma max_over_children_total (f : node -> Q -> result Q) (depth : Q) (l : list node) :
  Forall (fun c => forall d, exists v, f c d = Ok v) l ->
  forall acc, exists m,
    fold_left (fun acc child => max_depth ← acc; d ← f child depth;
                                mret (Qmax max_depth d))
              l (Ok acc) = Ok m.
Proof.
  induction 1 as [|c l Hc _ IH]; intros acc; [eexists; reflexivity|].
  destruct (Hc depth) as [v Hv]. cbn [fold_left].
  rewrite (bind_Ok (Ok acc) _ acc eq_refl), (bind_Ok _ _ _ Hv). apply IH.
Qed.

Lemma calculate_inheritance_depth_total (n : node) :
  (forall x, In x (walk n) -> node_ok x = true) ->
  forall depth, exists v, calculate_inheritance_depth n depth = Ok v.
Proof.
  induction n as [n IH] using node_children_ind. intros Hok depth.
  assert (Hd : exists d,
             (if isinstance n ["ClassDef"] then
                bases ← getattr n "bases"; len ← py_len bases;
                mret (depth + Qnat len)%Q
              else mret depth) = Ok d).
  { destruct (isinstance n ["ClassDef"]) eqn:Hcls; [|eexists; reflexivity].
    destruct (node_ok_ClassDef n (Hok n (walk_root n)) Hcls) as (_ & [bases Hb] & _).
    rewrite (bind_Ok _ _ _ Hb). eexists. reflexivity. }
  destruct Hd as [d Hd].
  assert (Hc : Forall (fun c => forall d, exists v, calculate_inheritance_depth c d = Ok v)
                 (iter_child_nodes n)).
  { apply List.Forall_forall. intros c Hc. rewrite List.Forall_forall in IH.
    apply (IH c Hc). intros x Hx.
    apply Hok. exact (walk_trans n c x (walk_child n c Hc) Hx). }
  destruct (max_over_children_total calculate_inheritance_depth d _ Hc d) as [m Hm].
  destruct n as [cls fields]. cbn [calculate_inheritance_depth].
  rewrite (bind_Ok _ _ _ Hd).
  rewrite (for_children_eq _ (Node cls fields)) in *.
  rewrite (bind_Ok _ _ _ Hm). eexists. reflexivity.
Qed.

Lemma calculate_number_of_interfaces_total (n : node) :
  node_ok n = true -> exists v, calculate_number_of_interfaces n = Ok v.
Proof.
  intros Hok. unfold calculate_number_of_interfaces.
  destruct (isinstance n ["ClassDef"]) eqn:Hcls; [|eexists; reflexivity].
  destruct (node_ok_ClassDef n Hok Hcls) as (_ & [bases Hb] & _).
  rewrite (bind_Ok _ _ _ Hb). eexists. reflexivity.
Qed.

Lemma calculate_polymorphism_total (tree n : node) (names : gset string) :
  well_formed tree = true -> In n (walk tree) ->
  exists v, calculate_polymorphism n names = Ok v.
Proof.
  intros Hwf Hn. unfold calculate_polymorphism.
  destruct (isinstance n ["ClassDef"]) eqn:Hcls; [|eexists; reflexivity].
  destruct (node_ok_ClassDef n (well_formed_node tree n Hwf Hn) Hcls)
    as (_ & _ & [body Hbody]).
  rewrite (bind_Ok _ _ _ Hbody). cbn [iter_ast_items].
  rewrite (bind_Ok (Ok body) _ body eq_refl).
  destruct (mapM_total (is_method_in names) body) as [flags Hflags].
  - apply List.Forall_forall. intros m Hm. unfold is_method_in.
    destruct (isinstance m ["FunctionDef"]) eqn:Hf; [|eexists; reflexivity].
    assert (Hw : In m (walk tree)).
    { apply (walk_trans tree n m Hn), walk_child.
      exact (getattr_list_child n "body" body m Hbody Hm). }
    destruct (node_ok_FunctionDef m (well_formed_node tree m Hwf Hw) Hf)
      as ([s Hs] & _).
    rewrite (bind_Ok _ _ _ Hs). eexists. reflexivity.
  - rewrite (bind_Ok _ _ _ Hflags). eexists. reflexivity.
Qed.

Lemma filter_none {A : Type} (f : A -> bool) (l : list A) :
  (forall x, In x l -> f x = false) -> List.filter f l = [].
Proof.
  induction l as [|x l IH]; intros H; [reflexivity|].
  simpl. rewrite (H x (or_introl eq_refl)). apply IH.
  intros y Hy. apply H. right. exact Hy.
Qed.

(** Without the limit on nested calls, every step returns on a well-formed
    tree that has no global declaration. *)
Lemma analyze_tree_returns (tree : node) :
  well_formed tree = true ->
  (forall g, In g (walk tree) -> isinstance g ["Global"] = false) ->
  exists scores total, analyze_tree tree = Ok (scores, total).
Proof.
  intros Hwf Hng. unfold analyze_tree.
  pose proof (well_formed_node tree) as Hok.
  destruct (class_names_total tree Hwf) as [cn Hcn].
  rewrite (bind_Ok _ _ _ Hcn).
  rewrite (bind_Ok _ _ _ (global_vars_no_global tree (filter_none _ _ Hng))).
  destruct (class_methods_total tree Hwf) as [cm Hcm].
  rewrite (bind_Ok _ _ _ Hcm).
  destruct (sum_over_walk_total calculate_function_length tree) as [v1 H1];
    [intros n Hn; exact (calculate_function_length_total n (Hok n Hwf Hn))|].
  rewrite (bind_Ok _ _ _ H1).
  destruct (sum_over_walk_total calculate_parameter_count tree) as [v2 H2];
    [intros n Hn; exact (calculate_parameter_count_total n (Hok n Hwf Hn))|].
  rewrite (bind_Ok _ _ _ H2).
  destruct (sum_over_walk_total (fun n => calculate_class_coupling n cn) tree)
    as [v3 H3];
    [intros n Hn; exact (calculate_class_coupling_total tree n cn Hwf Hn)|].
  rewrite (bind_Ok _ _ _ H3).
  destruct (sum_over_walk_total calculate_cohesion tree) as [v4 H4];
    [intros n Hn; exact (calculate_cohesion_total tree n Hwf Hn)|].
  rewrite (bind_Ok _ _ _ H4).
  destruct (calculate_global_variable_usage_total tree ∅ Hwf) as (flags & _ & H5).
  rewrite (bind_Ok _ _ _ H5).
  destruct (calculate_inheritance_depth_total tree (fun x Hx => Hok x Hwf Hx) 0%Q)
    as [v6 H6].
  rewrite (bind_Ok _ _ _ H6).
  destruct (sum_over_walk_total calculate_number_of_interfaces tree) as [v7 H7];
    [intros n Hn; exact (calculate_number_of_interfaces_total n (Hok n Hwf Hn))|].
  rewrite (bind_Ok _ _ _ H7).
  destruct (sum_over_walk_total (fun n => calculate_polymorphism n cm) tree)
    as [v8 H8];
    [intros n Hn; exact (calculate_polymorphism_total tree n cm Hwf Hn)|].
  rewrite (bind_Ok _ _ _ H8).
  eexists _, _. reflexivity.
Qed.

(** ** Nesting depth: what the recursion computes *)

Lemma Qmax_left (m r : Q) : (r <= m)%Q -> Qmax m r = m.
Proof.
  intros H. unfold Qmax, GenericMinMax.gmax.
  destruct (m ?= r)%Q eqn:Hc; try reflexivity.
  apply Qlt_alt in Hc. exfalso. exact (Qle_not_lt _ _ H Hc).
Qed.

Lemma fold_left_Qmax_fixed {A : Type} (g : A -> Q) (l : list A) (a : Q) :
  Forall (fun x => g x <= a)%Q l ->
  fold_left (fun m x => Qmax m (g x)) l a = a.
Proof.
  induction 1 as [|x l Hx _ IH]; [reflexivity|].
  cbn [fold_left]. rewrite (Qmax_left a (g x) Hx). exact IH.
Qed.

Lemma fold_left_Qmax_le {A : Type} (g : A -> Q) (l : list A) (a b : Q) :
  (a <= b)%Q -> Forall (fun x => g x <= b)%Q l ->
  (fold_left (fun m x => Qmax m (g x)) l a <= b)%Q.
Proof.
  intros Ha H. revert a Ha. induction H as [|x l Hx _ IH]; intros a Ha; [exact Ha|].
  cbn [fold_left]. apply IH. apply Q.max_lub; assumption.
Qed.

Lemma Qmin_cap_le (x d : Q) : (Qmin (x / d) 1 <= x / d)%Q.
Proof. apply Q.le_min_l. Qed.

(** Below a depth of at least 1 the maximum over the children is the depth
    itself. *)
Lemma max_over_children_fixed (n : node) (d : Q) :
  (1 <= d)%Q ->
  fold_left (fun max_depth child => Qmax max_depth (calculate_nesting_depth child d))
            (iter_child_nodes n) d = d.
Proof.
  intros Hd. apply fold_left_Qmax_fixed.
  apply List.Forall_forall. intros c _.
  eapply Qle_trans; [|exact Hd].
  apply calculate_nesting_depth_bounds.
  eapply Qle_trans; [|exact Hd]. discriminate.
Qed.

Lemma Qle_1_succ (d : Q) : (0 <= d)%Q -> (1 <= d + 1)%Q.
Proof.
  intros Hd. apply (Qle_trans _ (0 + 1)); [discriminate|].
  apply Qplus_le_compat; [exact Hd|apply Qle_refl].
Qed.

(** X1: a control structure entered at depth [d] evaluates to
    [min((d + 1) / 5, 1)] whatever it contains: the values its children
    return are already normalised and never exceed the raw depth. *)
Theorem calculate_nesting_depth_control (n : node) (d : Q) :
  isinstance n ["If"; "For"; "While"; "With"; "Try"] = true ->
  (0 <= d)%Q ->
  calculate_nesting_depth n d = Qmin ((d + 1) / 5) 1.
Proof.
  intros Hc Hd. rewrite calculate_nesting_depth_eq. cbv zeta. rewrite Hc.
  rewrite (max_over_children_fixed n (d + 1) (Qle_1_succ d Hd)). reflexivity.
Qed.

Lemma calculate_nesting_depth_control_witness :
  calculate_nesting_depth
    (ast_If (ast_Name "a" ast_Load)
       [ast_If (ast_Name "a" ast_Load) [ast_Pass] []] []) 0
  = Qmin ((0 + 1) / 5) 1.
Proof.
  apply calculate_nesting_depth_control; [reflexivity|discriminate].
Defined.

Lemma calculate_nesting_depth_top (n : node) :
  (calculate_nesting_depth n 0 <= 1 # 5)%Q.
Proof.
  induction n as [n IH] using node_children_ind.
  destruct (isinstance n ["If"; "For"; "While"; "With"; "Try"]) eqn:Hc.
  - rewrite calculate_nesting_depth_eq. cbv zeta. rewrite Hc.
    rewrite (max_over_children_fixed n (0 + 1)); [|discriminate].
    apply Q.le_min_l.
  - rewrite calculate_nesting_depth_eq. cbv zeta. rewrite Hc.
    eapply Qle_trans; [apply Q.le_min_l|].
    apply Qle_shift_div_r; [reflexivity|].
    apply fold_left_Qmax_le; [discriminate|].
    eapply List.Forall_impl; [|exact IH].
    intros c Hcc. eapply Qle_trans; [exact Hcc|discriminate].
Qed.

(** X2: when the root is not a control structure, as for every module,
    the reported nesting depth is at most 1/25, and it is exactly 1/25 as
    soon as one statement directly below the root is a control structure,
    however deep the nesting below that statement goes. *)
Theorem calculate_nesting_depth_root (n : node) :
  isinstance n ["If"; "For"; "While"; "With"; "Try"] = false ->
  (calculate_nesting_depth n 0 <= 1 # 25)%Q /\
  ((exists c, In c (iter_child_nodes n) /\
              isinstance c ["If"; "For"; "While"; "With"; "Try"] = true) ->
   (calculate_nesting_depth n 0 == 1 # 25)%Q).
Proof.
  intros Hc.
  assert (Hmax : (fold_left
                    (fun max_depth child => Qmax max_depth (calculate_nesting_depth child 0))
                    (iter_child_nodes n) 0 <= 1 # 5)%Q).
  { apply fold_left_Qmax_le; [discriminate|].
    apply List.Forall_forall. intros c _. apply calculate_nesting_depth_top. }
  assert (Hle : (calculate_nesting_depth n 0 <= 1 # 25)%Q).
  { rewrite calculate_nesting_depth_eq. cbv zeta. rewrite Hc.
    eapply Qle_trans; [apply Q.le_min_l|].
    apply Qle_shift_div_r; [reflexivity|].
    eapply Qle_trans; [exact Hmax|discriminate]. }
  split; [exact Hle|].
  intros (c & Hin & Hctrl). apply Qle_antisym; [exact Hle|].
  rewrite calculate_nesting_depth_eq. cbv zeta. rewrite Hc.
  apply Q.min_glb; [|discriminate].
  apply Qle_shift_div_l; [reflexivity|].
  assert (Hge : forall (l : list node) (a : Q),
             In c l ->
             (calculate_nesting_depth c 0 <=
              fold_left (fun m x => Qmax m (calculate_nesting_depth x 0)) l a)%Q).
  { induction l as [|x l IHl]; intros a Hl; [destruct Hl|].
    cbn [fold_left]. destruct Hl as [->|Hl].
    - eapply Qle_trans; [apply (Q.le_max_r a)|].
      apply (fold_left_Qmax_ge (fun x => calculate_nesting_depth x 0)).
    - apply IHl. exact Hl. }
  eapply Qle_trans; [|apply (Hge _ _ Hin)].
  rewrite calculate_nesting_depth_eq. cbv zeta. rewrite Hctrl.
  rewrite (max_over_children_fixed c (0 + 1)); [|discriminate].
  discriminate.
Qed.

Lemma calculate_nesting_depth_root_witness :
  (calculate_nesting_depth nested_ifs 0 == 1 # 25)%Q.
Proof.
  apply (calculate_nesting_depth_root nested_ifs); [reflexivity|].
  eexists. split; [left; reflexivity|reflexivity].
Defined.

(** ** Cyclomatic complexity: what the recursion computes *)

Lemma walk_In_iff (n x : node) :
  In x (walk n) <->
  x = n \/ exists c, In c (iter_child_nodes n) /\ In x (walk c).
Proof.
  split.
  - intros H. apply (Permutation_in _ (walk_preorder n)) in H.
    rewrite preorder_eq in H. destruct H as [<-|H]; [left; reflexivity|].
    right. apply in_flat_map in H as (c & Hc & Hx). exists c. split; [exact Hc|].
    exact (Permutation_in _ (Permutation_sym (walk_preorder c)) Hx).
  - intros [->|(c & Hc & Hx)]; [apply walk_root|].
    exact (walk_trans n c x (walk_child n c Hc) Hx).
Qed.

Lemma filter_nil_iff {A : Type} (f : A -> bool) (l : list A) :
  List.filter f l = [] <-> forall x, In x l -> f x = false.
Proof.
  split; [|apply filter_none].
  intros H x Hx. destruct (f x) eqn:Hf; [|reflexivity].
  assert (Hin : In x (List.filter f l)) by (apply List.filter_In; split; assumption).
  rewrite H in Hin. destruct Hin.
Qed.

Lemma fold_left_Qplus_zero {A : Type} (f : A -> Q) (l : list A) (a : Q) :
  Forall (fun x => 0 <= f x)%Q l -> (0 <= a)%Q ->
  (fold_left (fun acc x => acc + f x) l a == 0)%Q <->
  (a == 0)%Q /\ Forall (fun x => f x == 0)%Q l.
Proof.
  intros H. revert a. induction H as [|x l Hx _ IH]; intros a Ha; cbn [fold_left].
  - split; [intros H0; split; [exact H0|constructor]|intros [H0 _]; exact H0].
  - rewrite IH by lra. split.
    + intros [H0 Hl]. split; [lra|]. constructor; [lra|exact Hl].
    + intros [H0 Hl]. inversion Hl; subst. split; [lra|assumption].
Qed.

Lemma fold_left_Qplus_le {A : Type} (f : A -> Q) (l : list A) (a : Q) :
  Forall (fun x => f x <= 1)%Q l ->
  (fold_left (fun acc x => acc + f x) l a <= a + Qnat (length l))%Q.
Proof.
  intros H. revert a. induction H as [|x l Hx _ IH]; intros a; cbn [fold_left length].
  - change (Qnat 0) with 0%Q. lra.
  - eapply Qle_trans; [apply IH|].
    unfold Qnat. rewrite Nat2Z.inj_succ, <- Z.add_1_r, inject_Z_plus.
    change (inject_Z 1) with 1%Q. lra.
Qed.

Lemma cap_zero_iff (x : Q) :
  (0 <= x)%Q -> (Qmin (x / 10) 1 == 0)%Q <-> (x == 0)%Q.
Proof.
  intros Hx.
  assert (Hdiv : (x / 10 == x * (1 # 10))%Q) by reflexivity.
  destruct (Q.min_spec (x / 10) 1) as [[Hlt Hmin]|[Hle Hmin]]; rewrite Hmin.
  - rewrite Hdiv. split; intros H; lra.
  - rewrite Hdiv in Hle. split; intros H; lra.
Qed.

Lemma control_base_zero (n : node) :
  ((if isinstance n ["If"; "For"; "While"; "With"; "Try"; "ExceptHandler"]
    then (0 + 1)%Q else 0%Q) == 0)%Q <->
  isinstance n ["If"; "For"; "While"; "With"; "Try"; "ExceptHandler"] = false.
Proof.
  destruct (isinstance n _); split; intros H; try reflexivity; discriminate.
Qed.

Lemma cyclomatic_sum_nonneg (n : node) :
  (0 <= fold_left (fun complexity child =>
                     complexity + calculate_cyclomatic_complexity child)
                  (iter_child_nodes n)
                  (if isinstance n ["If"; "For"; "While"; "With"; "Try"; "ExceptHandler"]
                   then (0 + 1) else 0))%Q.
Proof.
  apply fold_left_Qplus_nonneg.
  - apply List.Forall_forall. intros c _. apply calculate_cyclomatic_complexity_bounds.
  - destruct (isinstance n _); discriminate.
Qed.

(** X3: the cyclomatic score of a tree is 0 exactly when the tree has no
    control-flow node (If, For, While, With, Try, ExceptHandler). *)
Theorem calculate_cyclomatic_complexity_zero (n : node) :
  (calculate_cyclomatic_complexity n == 0)%Q <-> control_nodes n = [].
Proof.
  unfold control_nodes. rewrite filter_nil_iff.
  induction n as [n IH] using node_children_ind.
  rewrite calculate_cyclomatic_complexity_eq.
  rewrite (cap_zero_iff _ (cyclomatic_sum_nonneg n)).
  rewrite fold_left_Qplus_zero;
    [|apply List.Forall_forall; intros c _; apply calculate_cyclomatic_complexity_bounds
     |destruct (isinstance n _); discriminate].
  rewrite control_base_zero. rewrite List.Forall_forall in IH. split.
  - intros [Hn Hch] x Hx. apply walk_In_iff in Hx as [->|(c & Hc & Hx)]; [exact Hn|].
    rewrite List.Forall_forall in Hch. exact (proj1 (IH c Hc) (Hch c Hc) x Hx).
  - intros H. split; [exact (H n (walk_root n))|].
    apply List.Forall_forall. intros c Hc. apply (IH c Hc).
    intros x Hx. apply H. exact (walk_trans n c x (walk_child n c Hc) Hx).
Qed.

(** X4: a node with [k] children scores at most [(k + 1) / 10], and at
    most [k / 10] when it is not itself a control-flow node: a module with
    fewer than ten top-level statements cannot reach the cap. *)
Theorem calculate_cyclomatic_complexity_children (n : node) :
  (calculate_cyclomatic_complexity n
   <= (Qnat (length (iter_child_nodes n)) + 1) / 10)%Q /\
  (isinstance n ["If"; "For"; "While"; "With"; "Try"; "ExceptHandler"] = false ->
   (calculate_cyclomatic_complexity n
    <= Qnat (length (iter_child_nodes n)) / 10)%Q).
Proof.
  assert (Hsum : forall a : Q,
             (fold_left (fun complexity child =>
                           complexity + calculate_cyclomatic_complexity child)
                        (iter_child_nodes n) a
              <= a + Qnat (length (iter_child_nodes n)))%Q).
  { intros a. apply fold_left_Qplus_le.
    apply List.Forall_forall. intros c _. apply calculate_cyclomatic_complexity_bounds. }
  rewrite calculate_cyclomatic_complexity_eq. split.
  - eapply Qle_trans; [apply Q.le_min_l|].
    apply Qmult_le_compat_r; [|discriminate].
    eapply Qle_trans; [apply Hsum|].
    destruct (isinstance n _); lra.
  - intros Hc. rewrite Hc.
    eapply Qle_trans; [apply Q.le_min_l|].
    apply Qmult_le_compat_r; [|discriminate].
    eapply Qle_trans; [apply Hsum|]. lra.
Qed.

Lemma calculate_cyclomatic_complexity_children_witness :
  (calculate_cyclomatic_complexity plain_module
   <= Qnat (length (iter_child_nodes plain_module)) / 10)%Q.
Proof.
  apply (calculate_cyclomatic_complexity_children plain_module). reflexivity.
Defined.

(** ** Inheritance depth: what the recursion computes *)

Lemma bind_ext {A B : Type} (m : result A) (f g : A -> result B) :
  (forall a, f a = g a) -> (m ≫= f) = (m ≫= g).
Proof. intros H. destruct m as [a|e]; [apply H|reflexivity]. Qed.

Lemma calculate_inheritance_depth_eq (n : node) (depth : Q) :
  calculate_inheritance_depth n depth =
  (depth ← (if isinstance n ["ClassDef"] then
              bases ← getattr n "bases";
              len ← py_len bases;
              mret (depth + Qnat len)%Q
            else mret depth);
   max_depth ←
     fold_left (max_step (fun child => calculate_inheritance_depth child depth))
               (iter_child_nodes n) (mret depth);
   mret (Qmin (max_depth / 5) 1)).
Proof.
  destruct n as [cls fields]. cbn [calculate_inheritance_depth].
  apply bind_ext. intros d. rewrite (for_children_eq _ (Node cls fields)). reflexivity.
Qed.

Lemma max_step_Raise (f : node -> result Q) (l : list node) (e : exn) :
  fold_left (max_step f) l (Raise e) = Raise e.
Proof. induction l as [|c l IH]; [reflexivity|exact IH]. Qed.

Lemma max_step_cons (f : node -> result Q) (c : node) (l : list node) (a : Q) :
  fold_left (max_step f) (c :: l) (Ok a) =
  match f c with
  | Ok v => fold_left (max_step f) l (Ok (Qmax a v))
  | Raise e => Raise e
  end.
Proof.
  cbn [fold_left]. unfold max_step at 2. cbn.
  destruct (f c) as [v|e]; cbn; [reflexivity|apply max_step_Raise].
Qed.

Lemma max_step_ge (f : node -> result Q) (l : list node) (a m : Q) :
  fold_left (max_step f) l (Ok a) = Ok m -> (a <= m)%Q.
Proof.
  revert a. induction l as [|c l IH]; intros a H.
  - inversion H. apply Qle_refl.
  - rewrite max_step_cons in H. destruct (f c) as [v|e]; [|discriminate].
    eapply Qle_trans; [apply (Q.le_max_l a v)|exact (IH _ H)].
Qed.

Lemma max_step_fixed (f : node -> result Q) (l : list node) (a m : Q) :
  (forall c v, In c l -> f c = Ok v -> (v <= a)%Q) ->
  fold_left (max_step f) l (Ok a) = Ok m -> m = a.
Proof.
  induction l as [|c l IH]; intros Hle H.
  - inversion H. reflexivity.
  - rewrite max_step_cons in H. destruct (f c) as [v|e] eqn:Hv; [|discriminate].
    rewrite (Qmax_left a v (Hle c v (or_introl eq_refl) Hv)) in H.
    apply IH; [|exact H]. intros c' v' Hc'. apply Hle. right. exact Hc'.
Qed.

Lemma max_step_le (f : node -> result Q) (l : list node) (a b m : Q) :
  (a <= b)%Q ->
  (forall c v, In c l -> f c = Ok v -> (v <= b)%Q) ->
  fold_left (max_step f) l (Ok a) = Ok m -> (m <= b)%Q.
Proof.
  revert a. induction l as [|c l IH]; intros a Ha Hle H.
  - inversion H; subst. exact Ha.
  - rewrite max_step_cons in H. destruct (f c) as [v|e] eqn:Hv; [|discriminate].
    apply (IH (Qmax a v)); [| |exact H].
    + apply Q.max_lub; [exact Ha|exact (Hle c v (or_introl eq_refl) Hv)].
    + intros c' v' Hc'. apply Hle. right. exact Hc'.
Qed.

Lemma calculate_inheritance_depth_inv (n : node) (depth v : Q) :
  calculate_inheritance_depth n depth = Ok v ->
  exists d m,
    (if isinstance n ["ClassDef"] then
       bases ← getattr n "bases"; len ← py_len bases; mret (depth + Qnat len)%Q
     else mret depth) = Ok d /\
    fold_left (max_step (fun child => calculate_inheritance_depth child d))
              (iter_child_nodes n) (Ok d) = Ok m /\
    v = Qmin (m / 5) 1.
Proof.
  rewrite calculate_inheritance_depth_eq. intros H.
  apply bind_Ok_inv in H as (d & Hd & H).
  apply bind_Ok_inv in H as (m & Hm & H).
  exists d, m. split; [exact Hd|]. split; [exact Hm|]. inversion H. reflexivity.
Qed.

Lemma class_depth_nonneg (n : node) (depth d : Q) :
  (0 <= depth)%Q ->
  (if isinstance n ["ClassDef"] then
     bases ← getattr n "bases"; len ← py_len bases; mret (depth + Qnat len)%Q
   else mret depth) = Ok d ->
  (depth <= d)%Q.
Proof.
  intros Hd H. destruct (isinstance n ["ClassDef"]).
  - apply bind_Ok_inv in H as (bases & _ & H).
    apply bind_Ok_inv in H as (len & _ & H). inversion H; subst.
    pose proof (Qnat_nonneg len). lra.
  - inversion H. apply Qle_refl.
Qed.

Lemma calculate_inheritance_depth_bounds (n : node) (depth v : Q) :
  (0 <= depth)%Q -> calculate_inheritance_depth n depth = Ok v ->
  (0 <= v)%Q /\ (v <= 1)%Q.
Proof.
  intros Hd H. apply calculate_inheritance_depth_inv in H as (d & m & Hdd & Hm & ->).
  apply cap_bounds; [|reflexivity].
  pose proof (class_depth_nonneg n depth d Hd Hdd).
  pose proof (max_step_ge _ _ _ _ Hm). lra.
Qed.

(** Without the limit on nested calls: the value of a class definition
    with at least one base class, reached at depth [d]. *)
Lemma inheritance_depth_class_value (n : node) (bases : list node) (depth : Q) :
  well_formed n = true ->
  isinstance n ["ClassDef"] = true ->
  getattr n "bases" = Ok (VList bases) ->
  bases <> [] ->
  (0 <= depth)%Q ->
  calculate_inheritance_depth n depth
  = Ok (Qmin ((depth + Qnat (length bases)) / 5) 1).
Proof.
  intros Hwf Hcls Hbases Hne Hd.
  destruct (calculate_inheritance_depth_total n
              (fun x Hx => well_formed_node n x Hwf Hx) depth) as [v Hv].
  rewrite Hv. f_equal.
  apply calculate_inheritance_depth_inv in Hv as (d & m & Hdd & Hm & ->).
  rewrite Hcls, (bind_Ok _ _ _ Hbases) in Hdd. inversion Hdd; subst d.
  assert (H1 : (1 <= depth + Qnat (length bases))%Q).
  { destruct bases as [|b bs]; [contradiction|]. cbn [length].
    unfold Qnat. rewrite Nat2Z.inj_succ, <- Z.add_1_r, inject_Z_plus.
    change (inject_Z 1) with 1%Q. pose proof (Qnat_nonneg (length bs)) as Hb.
    unfold Qnat in Hb. lra. }
  rewrite (max_step_fixed _ _ _ _ (fun c v _ Hc =>
             Qle_trans _ _ _
               (proj2 (calculate_inheritance_depth_bounds c _ v
                         (Qle_trans _ _ _ (Qle_trans 0 1 _ ltac:(discriminate) H1)
                            (Qle_refl _)) Hc))
               H1) Hm).
  reflexivity.
Qed.

(** Without the limit on nested calls: the value at a root that is not a
    class definition. *)
Lemma inheritance_depth_root_value (n : node) :
  well_formed n = true ->
  isinstance n ["ClassDef"] = false ->
  exists v, calculate_inheritance_depth n 0 = Ok v /\ (0 <= v)%Q /\ (v <= 1 # 5)%Q.
Proof.
  intros Hwf Hcls.
  destruct (calculate_inheritance_depth_total n
              (fun x Hx => well_formed_node n x Hwf Hx) 0%Q) as [v Hv].
  exists v. split; [exact Hv|].
  split; [apply (calculate_inheritance_depth_bounds n 0 v); [discriminate|exact Hv]|].
  apply calculate_inheritance_depth_inv in Hv as (d & m & Hdd & Hm & ->).
  rewrite Hcls in Hdd. inversion Hdd; subst d.
  assert (Hm1 : (m <= 1)%Q).
  { apply (max_step_le _ _ 0 1 m ltac:(discriminate)
             (fun c v _ Hc =>
                proj2 (calculate_inheritance_depth_bounds c 0 v ltac:(discriminate) Hc))
             Hm). }
  eapply Qle_trans; [apply Q.le_min_l|].
  apply Qle_shift_div_r; [reflexivity|]. lra.
Qed.

(** ** Global variable usage in a report *)

Lemma global_vars_empty (tree : node) (names : gset string) :
  well_formed tree = true -> global_vars tree = Ok names -> names = ∅.
Proof.
  intros Hwf H.
  destruct (List.filter (fun n => isinstance n ["Global"]) (walk tree))
    as [|g rest] eqn:Hf.
  - rewrite (global_vars_no_global tree Hf) in H. inversion H. reflexivity.
  - assert (Hg : In g (walk tree) /\ isinstance g ["Global"] = true).
    { apply (proj1 (List.filter_In (fun n => isinstance n ["Global"]) g (walk tree))).
      rewrite Hf. left. reflexivity. }
    rewrite (global_vars_raises tree g Hwf (proj1 Hg) (proj2 Hg)) in H. discriminate.
Qed.

Lemma is_name_in_empty (child : node) (b : bool) :
  is_name_in ∅ child = Ok b -> b = false.
Proof.
  unfold is_name_in. destruct (isinstance child ["Name"]).
  - intros H. apply bind_Ok_inv in H as (v & _ & H).
    destruct v; inversion H; reflexivity.
  - intros H. inversion H. reflexivity.
Qed.

Lemma py_sum_bool_none (flags : list bool) :
  Forall (fun b => b = false) flags -> py_sum_bool flags = 0.
Proof.
  unfold py_sum_bool. induction 1 as [|b l Hb _ IH]; [reflexivity|].
  subst b. exact IH.
Qed.

Lemma Forall2_Forall_r {A B : Type} (R : A -> B -> Prop) (P : B -> Prop)
    (l : list A) (k : list B) :
  Forall2 R l k -> (forall x y, R x y -> P y) -> Forall P k.
Proof.
  intros H HP. induction H as [|x y l k Hxy _ IH]; constructor; eauto.
Qed.

Lemma calculate_global_variable_usage_empty (tree : node) (v : Q) :
  calculate_global_variable_usage tree ∅ = Ok v -> v = Qmin (Qnat 0 / 10) 1.
Proof.
  unfold calculate_global_variable_usage. intros H.
  apply bind_Ok_inv in H as (flags & Hflags & H). inversion H.
  rewrite py_sum_bool_none; [reflexivity|].
  apply mapM_Ok_inv in Hflags.
  exact (Forall2_Forall_r _ _ _ _ Hflags (fun x y Hxy => is_name_in_empty x y Hxy)).
Qed.

(** X7: in every report produced for a well-formed tree the
    global_variable_usage score is 0: the analysis only gets past the
    construction of [global_vars] when the tree has no global declaration,
    and the set is then empty. *)
Theorem analyze_tree_global_variable_usage (tree : node) (scores : scores_t) (total : Q) :
  well_formed tree = true ->
  analyze_tree tree = Ok (scores, total) ->
  exists v, dict_get "global_variable_usage" scores = Some v /\ (v == 0)%Q.
Proof.
  intros Hwf H. unfold analyze_tree in H. do 11 bind_inv H.
  inversion H; subst scores total. clear H.
  pose proof (global_vars_empty tree _ Hwf Ha0) as ->.
  apply calculate_global_variable_usage_empty in Ha6. subst.
  eexists. split; [reflexivity|reflexivity].
Qed.

Lemma analyze_tree_global_variable_usage_witness :
  exists scores total,
    analyze_tree shared_attr_module = Ok (scores, total) /\
    exists v, dict_get "global_variable_usage" scores = Some v /\ (v == 0)%Q.
Proof.
  eexists _, _. split; [vm_compute; reflexivity|].
  eapply (analyze_tree_global_variable_usage shared_attr_module);
    [reflexivity|vm_compute; reflexivity].
Defined.

(** ** Cohesion and imports over a whole tree *)

Lemma Qnat_S (k : nat) : (Qnat (S k) == Qnat k + 1)%Q.
Proof.
  unfold Qnat. rewrite Nat2Z.inj_succ, <- Z.add_1_r, inject_Z_plus. reflexivity.
Qed.

Lemma sum_indicator (f : node -> result Q) (p : node -> bool) (l : list node) :
  Forall (fun n => exists c, f n = Ok c /\ (c == if p n then 1 else 0)%Q) l ->
  exists vals, mapM f l = Ok vals /\
               (py_sum vals == Qnat (length (List.filter p l)))%Q.
Proof.
  induction 1 as [|n l (c & Hc & Hv) _ (vals & Hvals & Hsum)].
  - exists []. split; reflexivity.
  - exists (c :: vals).
    rewrite mapM_cons, (bind_Ok _ _ _ Hc), (bind_Ok _ _ _ Hvals).
    split; [reflexivity|]. rewrite py_sum_cons, Hsum, Hv. cbn [List.filter].
    destruct (p n); cbn [length]; [rewrite Qnat_S|]; ring.
Qed.

Lemma calculate_cohesion_indicator (tree n : node) :
  well_formed tree = true -> In n (walk tree) ->
  exists c, calculate_cohesion n = Ok c /\
            (c == if has_methods n then 1 else 0)%Q.
Proof.
  intros Hwf Hn. unfold has_methods.
  destruct (isinstance n ["ClassDef"]) eqn:Hcls.
  - destruct (direct_methods_total tree n Hwf Hn Hcls) as [methods Hm].
    rewrite Hm. destruct methods as [|m ms]; cbn [andb].
    + apply direct_methods_inv in Hm as (body & items & Hbody & Hitems & Heq).
      unfold calculate_cohesion.
      rewrite Hcls, (bind_Ok _ _ _ Hbody), (bind_Ok _ _ _ Hitems), <- Heq.
      eexists. split; reflexivity.
    + eexists. split.
      * apply (calculate_cohesion_methods n (m :: ms));
          [exact (well_formed_sub tree n Hwf Hn)|exact Hcls|exact Hm|discriminate].
      * change (Qnat 0) with 0%Q. unfold Qdiv. rewrite Qmult_0_l. reflexivity.
  - unfold calculate_cohesion. rewrite Hcls. eexists. split; reflexivity.
Qed.

(** X8: the cohesion score of a well-formed tree is the number of its
    class definitions that define at least one method. *)
Theorem cohesion_counts_classes (tree : node) :
  well_formed tree = true ->
  exists v, sum_over_walk calculate_cohesion tree = Ok v /\
            (v == Qnat (length (List.filter has_methods (walk tree))))%Q.
Proof.
  intros Hwf.
  destruct (sum_indicator calculate_cohesion has_methods (walk tree))
    as (vals & Hvals & Hsum).
  { apply List.Forall_forall. intros n Hn.
    exact (calculate_cohesion_indicator tree n Hwf Hn). }
  exists (py_sum vals). split; [|exact Hsum].
  unfold sum_over_walk. rewrite (bind_Ok _ _ _ Hvals). reflexivity.
Qed.

Lemma cohesion_counts_classes_witness :
  exists v, sum_over_walk calculate_cohesion shared_attr_module = Ok v /\
            (v == Qnat (length (List.filter has_methods (walk shared_attr_module))))%Q.
Proof.
  apply (cohesion_counts_classes shared_attr_module). reflexivity.
Defined.

Lemma fold_left_add_count {A : Type} (p : A -> bool) (l : list A) (a : nat) :
  fold_left Nat.add (map (fun x => if p x then 1 else 0) l) a
  = a + length (List.filter p l).
Proof.
  revert a. induction l as [|x l IH]; intros a; cbn [map fold_left List.filter].
  - cbn. lia.
  - rewrite IH. destruct (p x); cbn [length]; lia.
Qed.

Lemma import_count_eq (tree : node) :
  py_sum_int (map calculate_import_count (walk tree)) = length (import_nodes tree).
Proof.
  unfold py_sum_int, import_nodes, calculate_import_count.
  apply (fold_left_add_count (fun n => isinstance n ["Import"; "ImportFrom"])).
Qed.

(** X9: import_complexity is [min(k / 20, 1)] for [k] the number of
    import statements anywhere in the tree, counted once: it is [k / 20]
    up to twenty imports and 1 from twenty on. *)
Theorem calculate_import_complexity_count (tree : node) :
  calculate_import_complexity tree
  = Qmin (Qnat (length (import_nodes tree)) / 20) 1 /\
  (length (import_nodes tree) <= 20 ->
   (calculate_import_complexity tree == Qnat (length (import_nodes tree)) / 20)%Q) /\
  (20 <= length (import_nodes tree) ->
   (calculate_import_complexity tree == 1)%Q).
Proof.
  unfold calculate_import_complexity. rewrite import_count_eq.
  split; [reflexivity|].
  assert (Hdiv : forall k, (Qnat k / 20 == Qnat k * (1 # 20))%Q) by (intros; reflexivity).
  assert (Hq : forall k, (k <= 20)%nat <-> (Qnat k <= 20)%Q).
  { intros k. unfold Qnat. change 20%Q with (inject_Z 20). rewrite <- Zle_Qle. lia. }
  assert (Hq' : forall k, (20 <= k)%nat <-> (20 <= Qnat k)%Q).
  { intros k. unfold Qnat. change 20%Q with (inject_Z 20). rewrite <- Zle_Qle. lia. }
  split; intros Hk.
  - apply Q.min_l. rewrite Hdiv. apply Hq in Hk. lra.
  - apply Q.min_r. rewrite Hdiv. apply Hq' in Hk. lra.
Qed.

Lemma calculate_import_complexity_count_witness :
  (calculate_import_complexity many_imports == 1)%Q /\
  (calculate_import_complexity plain_module
   == Qnat (length (import_nodes plain_module)) / 20)%Q.
Proof.
  split.
  - apply (calculate_import_complexity_count many_imports). vm_compute. lia.
  - apply (calculate_import_complexity_count plain_module). vm_compute. lia.
Defined.

(** ** Ranges of the per-node rules and of the report *)

Ltac binds_inv :=
  repeat match goal with
         | H : (_ ≫= _) = Ok _ |- _ => bind_inv H
         end.

Lemma unit_interval_0 : (0 <= 0)%Q /\ (0 <= 1)%Q.
Proof. split; discriminate. Qed.

Lemma calculate_function_length_range (n : node) (c : Q) :
  calculate_function_length n = Ok c -> (0 <= c)%Q /\ (c <= 1)%Q.
Proof.
  unfold calculate_function_length. destruct (isinstance n ["FunctionDef"]); intros H.
  - binds_inv. inversion H. apply cap_bounds; [apply Qnat_nonneg|reflexivity].
  - inversion H. exact unit_interval_0.
Qed.

Lemma calculate_parameter_count_range (n : node) (c : Q) :
  calculate_parameter_count n = Ok c -> (0 <= c)%Q /\ (c <= 1)%Q.
Proof.
  unfold calculate_parameter_count. destruct (isinstance n ["FunctionDef"]); intros H.
  - binds_inv. inversion H. apply cap_bounds; [apply Qnat_nonneg|reflexivity].
  - inversion H. exact unit_interval_0.
Qed.

Lemma calculate_class_coupling_range (n : node) (names : gset string) (c : Q) :
  calculate_class_coupling n names = Ok c -> (0 <= c)%Q /\ (c <= 1)%Q.
Proof.
  unfold calculate_class_coupling. destruct (isinstance n ["ClassDef"]); intros H.
  - binds_inv. inversion H. apply cap_bounds; [apply Qnat_nonneg|reflexivity].
  - inversion H. exact unit_interval_0.
Qed.

Lemma calculate_number_of_interfaces_range (n : node) (c : Q) :
  calculate_number_of_interfaces n = Ok c -> (0 <= c)%Q /\ (c <= 1)%Q.
Proof.
  unfold calculate_number_of_interfaces. destruct (isinstance n ["ClassDef"]); intros H.
  - binds_inv. inversion H. apply cap_bounds; [apply Qnat_nonneg|reflexivity].
  - inversion H. exact unit_interval_0.
Qed.

Lemma calculate_polymorphism_range (n : node) (names : gset string) (c : Q) :
  calculate_polymorphism n names = Ok c -> (0 <= c)%Q /\ (c <= 1)%Q.
Proof.
  unfold calculate_polymorphism. destruct (isinstance n ["ClassDef"]); intros H.
  - binds_inv. inversion H. apply cap_bounds; [apply Qnat_nonneg|reflexivity].
  - inversion H. exact unit_interval_0.
Qed.

Lemma py_sum_bool_le (flags : list bool) : py_sum_bool flags <= length flags.
Proof.
  unfold py_sum_bool. induction flags as [|b l IH]; [reflexivity|].
  cbn [List.filter length]. destruct b; cbn [length]; lia.
Qed.

Lemma Qnat_le (a b : nat) : a <= b -> (Qnat a <= Qnat b)%Q.
Proof. intros H. unfold Qnat. rewrite <- Zle_Qle. lia. Qed.

Lemma ratio_range (s l : nat) :
  s <= l -> 0 < l ->
  (0 <= 1 - Qnat s / Qnat l)%Q /\ (1 - Qnat s / Qnat l <= 1)%Q.
Proof.
  intros Hs Hl.
  assert (Hlq : (0 < Qnat l)%Q).
  { unfold Qnat. change 0%Q with (inject_Z 0). rewrite <- Zlt_Qlt. lia. }
  assert (H0 : (0 <= Qnat s / Qnat l)%Q).
  { apply Qle_shift_div_l; [exact Hlq|]. rewrite Qmult_0_l. apply Qnat_nonneg. }
  assert (H1 : (Qnat s / Qnat l <= 1)%Q).
  { apply Qle_shift_div_r; [exact Hlq|]. rewrite Qmult_1_l. apply Qnat_le, Hs. }
  split; lra.
Qed.

Lemma calculate_cohesion_range (n : node) (c : Q) :
  calculate_cohesion n = Ok c -> (0 <= c)%Q /\ (c <= 1)%Q.
Proof.
  unfold calculate_cohesion. destruct (isinstance n ["ClassDef"]); intros H;
    [|inversion H; exact unit_interval_0].
  apply bind_Ok_inv in H as (body & _ & H).
  apply bind_Ok_inv in H as (items & _ & H).
  destruct (List.filter (fun m => isinstance m ["FunctionDef"]) items) as [|m ms];
    [inversion H; exact unit_interval_0|].
  apply bind_Ok_inv in H as (attrs & _ & H).
  apply bind_Ok_inv in H as (flags & Hflags & H). inversion H.
  apply mapM_Ok_inv, Forall2_length in Hflags.
  pose proof (py_sum_bool_le flags) as Hle. cbn [length] in Hflags.
  apply ratio_range; cbn [length]; lia.
Qed.

(** X10: on every node of a well-formed tree each per-node rule returns a
    value between 0 and 1, whatever fact sets it is given. *)
Theorem per_node_rules_range (tree n : node) (names : gset string) :
  well_formed tree = true -> In n (walk tree) ->
  (exists c, calculate_function_length n = Ok c /\ (0 <= c)%Q /\ (c <= 1)%Q) /\
  (exists c, calculate_parameter_count n = Ok c /\ (0 <= c)%Q /\ (c <= 1)%Q) /\
  (exists c, calculate_class_coupling n names = Ok c /\ (0 <= c)%Q /\ (c <= 1)%Q) /\
  (exists c, calculate_cohesion n = Ok c /\ (0 <= c)%Q /\ (c <= 1)%Q) /\
  (exists c, calculate_number_of_interfaces n = Ok c /\ (0 <= c)%Q /\ (c <= 1)%Q) /\
  (exists c, calculate_polymorphism n names = Ok c /\ (0 <= c)%Q /\ (c <= 1)%Q).
Proof.
  intros Hwf Hn. pose proof (well_formed_node tree n Hwf Hn) as Hok.
  split; [|split; [|split; [|split; [|split]]]].
  - destruct (calculate_function_length_total n Hok) as [c Hc].
    exists c. split; [exact Hc|exact (calculate_function_length_range n c Hc)].
  - destruct (calculate_parameter_count_total n Hok) as [c Hc].
    exists c. split; [exact Hc|exact (calculate_parameter_count_range n c Hc)].
  - destruct (calculate_class_coupling_total tree n names Hwf Hn) as [c Hc].
    exists c. split; [exact Hc|exact (calculate_class_coupling_range n names c Hc)].
  - destruct (calculate_cohesion_total tree n Hwf Hn) as [c Hc].
    exists c. split; [exact Hc|exact (calculate_cohesion_range n c Hc)].
  - destruct (calculate_number_of_interfaces_total n Hok) as [c Hc].
    exists c. split; [exact Hc|exact (calculate_number_of_interfaces_range n c Hc)].
  - destruct (calculate_polymorphism_total tree n names Hwf Hn) as [c Hc].
    exists c. split; [exact Hc|exact (calculate_polymorphism_range n names c Hc)].
Qed.

Lemma per_node_rules_range_witness :
  exists c, calculate_class_coupling shared_attr_class {["C"]} = Ok c /\
            (0 <= c)%Q /\ (c <= 1)%Q.
Proof.
  assert (Hwf : well_formed shared_attr_module = true) by reflexivity.
  assert (Hin : In shared_attr_class (walk shared_attr_module))
    by (vm_compute; right; left; reflexivity).
  destruct (per_node_rules_range shared_attr_module shared_attr_class {["C"]} Hwf Hin)
    as (_ & _ & H & _).
  exact H.
Defined.

Lemma py_sum_nonneg (vals : list Q) :
  Forall (fun v => 0 <= v)%Q vals -> (0 <= py_sum vals)%Q.
Proof.
  intros H. unfold py_sum.
  apply (fold_left_Qplus_nonneg (fun v => v) vals 0 H). discriminate.
Qed.

Lemma sum_over_walk_nonneg (f : node -> result Q) (tree : node) (v : Q) :
  (forall n c, f n = Ok c -> (0 <= c)%Q) ->
  sum_over_walk f tree = Ok v -> (0 <= v)%Q.
Proof.
  intros Hf H. unfold sum_over_walk in H.
  apply bind_Ok_inv in H as (vals & Hvals & H). inversion H.
  apply py_sum_nonneg. apply mapM_Ok_inv in Hvals.
  exact (Forall2_Forall_r _ _ _ _ Hvals (fun x y Hxy => Hf x y Hxy)).
Qed.

Lemma Forall_map_snd (scores : scores_t) :
  Forall (fun kv => 0 <= snd kv)%Q scores ->
  Forall (fun v => 0 <= v)%Q (map snd scores).
Proof. induction 1; constructor; assumption. Qed.

(** X11: in every report all eleven scores are at least 0, and the total
    is their sum divided by 11, hence at least 0 as well. *)
Theorem analyze_tree_nonneg (tree : node) (scores : scores_t) (total : Q) :
  analyze_tree tree = Ok (scores, total) ->
  Forall (fun kv => 0 <= snd kv)%Q scores /\
  (total == py_sum (map snd scores) / 11)%Q /\
  (0 <= total)%Q.
Proof.
  intros H. unfold analyze_tree in H. do 11 bind_inv H.
  inversion H; subst scores total. clear H.
  assert (Hs : Forall (fun kv : string * Q => 0 <= snd kv)%Q
                 [("cyclomatic_complexity", calculate_cyclomatic_complexity tree);
                  ("nesting_depth", calculate_nesting_depth tree 0);
                  ("function_length", a2); ("parameter_count", a3);
                  ("class_coupling", a4); ("cohesion", a5);
                  ("global_variable_usage", a6); ("inheritance_depth", a7);
                  ("number_of_interfaces", a8); ("polymorphism", a9);
                  ("calculate_import_complexity", calculate_import_complexity tree)]).
  { repeat apply List.Forall_cons; [..|apply List.Forall_nil]; cbn [snd].
    - apply calculate_cyclomatic_complexity_bounds.
    - apply calculate_nesting_depth_bounds. discriminate.
    - apply (sum_over_walk_nonneg _ _ _
               (fun n c Hc => proj1 (calculate_function_length_range n c Hc)) Ha2).
    - apply (sum_over_walk_nonneg _ _ _
               (fun n c Hc => proj1 (calculate_parameter_count_range n c Hc)) Ha3).
    - apply (sum_over_walk_nonneg _ _ _
               (fun n c Hc => proj1 (calculate_class_coupling_range n a c Hc)) Ha4).
    - apply (sum_over_walk_nonneg _ _ _
               (fun n c Hc => proj1 (calculate_cohesion_range n c Hc)) Ha5).
    - unfold calculate_global_variable_usage in Ha6.
      apply bind_Ok_inv in Ha6 as (flags & _ & Ha6). inversion Ha6.
      apply cap_bounds; [apply Qnat_nonneg|reflexivity].
    - apply (calculate_inheritance_depth_bounds tree 0 a7); [discriminate|exact Ha7].
    - apply (sum_over_walk_nonneg _ _ _
               (fun n c Hc => proj1 (calculate_number_of_interfaces_range n c Hc)) Ha8).
    - apply (sum_over_walk_nonneg _ _ _
               (fun n c Hc => proj1 (calculate_polymorphism_range n a1 c Hc)) Ha9).
    - apply calculate_import_complexity_bounds. }
  split; [exact Hs|]. split; [reflexivity|].
  apply Qle_shift_div_l; [reflexivity|]. rewrite Qmult_0_l.
  apply py_sum_nonneg. exact (Forall_map_snd _ Hs).
Qed.

Lemma analyze_tree_nonneg_witness :
  exists scores total,
    analyze_tree two_functions = Ok (scores, total) /\
    Forall (fun kv => 0 <= snd kv)%Q scores /\
    (total == py_sum (map snd scores) / 11)%Q /\
    (0 <= total)%Q.
Proof.
  eexists _, _. split; [vm_compute; reflexivity|].
  eapply (analyze_tree_nonneg two_functions). vm_compute. reflexivity.
Defined.

(** ** Trees without classes or without functions *)

Lemma py_sum_zeros {A : Type} (l : list A) : (py_sum (map (fun _ => 0%Q) l) == 0)%Q.
Proof.
  induction l as [|x l IH]; [reflexivity|].
  cbn [map]. rewrite py_sum_cons, IH. reflexivity.
Qed.

Lemma sum_over_walk_zero (f : node -> result Q) (tree : node) (v : Q) :
  (forall n, In n (walk tree) -> f n = Ok 0%Q) ->
  sum_over_walk f tree = Ok v -> (v == 0)%Q.
Proof.
  intros Hf H. unfold sum_over_walk in H.
  rewrite (mapM_ext_in f (fun _ => Ok 0%Q) (walk tree) Hf) in H.
  rewrite (mapM_const (fun _ => Ok 0%Q) 0%Q (walk tree) (fun _ => eq_refl)) in H.
  inversion H. apply py_sum_zeros.
Qed.

Lemma Qeq_Qle (x y : Q) : (x == y)%Q -> (x <= y)%Q.
Proof. intros H. rewrite H. apply Qle_refl. Qed.

Lemma calculate_inheritance_depth_no_class (n : node) :
  (forall x, In x (walk n) -> isinstance x ["ClassDef"] = false) ->
  forall v, calculate_inheritance_depth n 0 = Ok v -> (v == 0)%Q.
Proof.
  induction n as [n IH] using node_children_ind. intros Hno v Hv.
  apply calculate_inheritance_depth_inv in Hv as (d & m & Hd & Hm & ->).
  rewrite (Hno n (walk_root n)) in Hd. inversion Hd; subst d.
  rewrite List.Forall_forall in IH.
  rewrite (max_step_fixed _ _ _ _
             (fun c v Hc Hcv =>
                Qeq_Qle v 0
                  (IH c Hc (fun x Hx => Hno x (walk_trans n c x (walk_child n c Hc) Hx))
                      v Hcv))
             Hm).
  reflexivity.
Qed.

(** X12: when the tree has no class definition, the report gives 0 for
    class_coupling, cohesion, inheritance_depth, number_of_interfaces and
    polymorphism. *)
Theorem analyze_tree_no_classes (tree : node) (scores : scores_t) (total : Q) :
  class_defs tree = [] ->
  analyze_tree tree = Ok (scores, total) ->
  Forall (fun key => exists v, dict_get key scores = Some v /\ (v == 0)%Q)
    ["class_coupling"; "cohesion"; "inheritance_depth"; "number_of_interfaces";
     "polymorphism"].
Proof.
  intros Hno H. unfold class_defs in Hno.
  pose proof (proj1 (filter_nil_iff _ _) Hno) as Hnc. cbv beta in Hnc.
  unfold analyze_tree in H. do 11 bind_inv H.
  inversion H; subst scores total. clear H.
  repeat apply List.Forall_cons; [..|apply List.Forall_nil];
    (eexists; split; [reflexivity|]).
  - refine (sum_over_walk_zero _ tree a4 _ Ha4).
    intros n Hn. unfold calculate_class_coupling. rewrite (Hnc n Hn). reflexivity.
  - refine (sum_over_walk_zero _ tree a5 _ Ha5).
    intros n Hn. unfold calculate_cohesion. rewrite (Hnc n Hn). reflexivity.
  - exact (calculate_inheritance_depth_no_class tree Hnc a7 Ha7).
  - refine (sum_over_walk_zero _ tree a8 _ Ha8).
    intros n Hn. unfold calculate_number_of_interfaces. rewrite (Hnc n Hn). reflexivity.
  - refine (sum_over_walk_zero _ tree a9 _ Ha9).
    intros n Hn. unfold calculate_polymorphism. rewrite (Hnc n Hn). reflexivity.
Qed.

Lemma analyze_tree_no_classes_witness :
  exists scores total,
    analyze_tree two_functions = Ok (scores, total) /\
    Forall (fun key => exists v, dict_get key scores = Some v /\ (v == 0)%Q)
      ["class_coupling"; "cohesion"; "inheritance_depth"; "number_of_interfaces";
       "polymorphism"].
Proof.
  eexists _, _. split; [vm_compute; reflexivity|].
  eapply (analyze_tree_no_classes two_functions);
    [vm_compute; reflexivity|vm_compute; reflexivity].
Defined.

(** X13: when the tree has no function definition, the report gives 0 for
    function_length and parameter_count. *)
Theorem analyze_tree_no_functions (tree : node) (scores : scores_t) (total : Q) :
  function_defs tree = [] ->
  analyze_tree tree = Ok (scores, total) ->
  Forall (fun key => exists v, dict_get key scores = Some v /\ (v == 0)%Q)
    ["function_length"; "parameter_count"].
Proof.
  intros Hno H. unfold function_defs in Hno.
  pose proof (proj1 (filter_nil_iff _ _) Hno) as Hnf. cbv beta in Hnf.
  unfold analyze_tree in H. do 11 bind_inv H.
  inversion H; subst scores total. clear H.
  repeat apply List.Forall_cons; [..|apply List.Forall_nil];
    (eexists; split; [reflexivity|]).
  - refine (sum_over_walk_zero _ tree a2 _ Ha2).
    intros n Hn. unfold calculate_function_length. rewrite (Hnf n Hn). reflexivity.
  - refine (sum_over_walk_zero _ tree a3 _ Ha3).
    intros n Hn. unfold calculate_parameter_count. rewrite (Hnf n Hn). reflexivity.
Qed.

Lemma analyze_tree_no_functions_witness :
  exists scores total,
    analyze_tree derived_module = Ok (scores, total) /\
    Forall (fun key => exists v, dict_get key scores = Some v /\ (v == 0)%Q)
      ["function_length"; "parameter_count"].
Proof.
  eexists _, _. split; [vm_compute; reflexivity|].
  eapply (analyze_tree_no_functions derived_module);
    [vm_compute; reflexivity|vm_compute; reflexivity].
Defined.

(** ** Summed scores against the number of qualifying nodes *)

Lemma sum_bounded_by_count (f : node -> result Q) (p : node -> bool)
    (l : list node) (vals : list Q) :
  (forall n c, f n = Ok c -> (c <= if p n then 1 else 0)%Q) ->
  mapM f l = Ok vals ->
  (py_sum vals <= Qnat (length (List.filter p l)))%Q.
Proof.
  intros Hf H. apply mapM_Ok_inv in H.
  induction H as [|n c l vals Hc _ IH]; [discriminate|].
  rewrite py_sum_cons. specialize (Hf n c Hc). cbn [List.filter].
  destruct (p n); cbn [length]; [rewrite Qnat_S|]; lra.
Qed.

Lemma sum_over_walk_bounded (f : node -> result Q) (p : node -> bool)
    (tree : node) (v : Q) :
  (forall n c, f n = Ok c -> (c <= if p n then 1 else 0)%Q) ->
  sum_over_walk f tree = Ok v ->
  (v <= Qnat (length (List.filter p (walk tree))))%Q.
Proof.
  intros Hf H. unfold sum_over_walk in H.
  apply bind_Ok_inv in H as (vals & Hvals & H). inversion H.
  exact (sum_bounded_by_count f p (walk tree) vals Hf Hvals).
Qed.

Lemma function_term_le (f : node -> result Q) (n : node) (c : Q) :
  (forall c, f n = Ok c -> (c <= 1)%Q) ->
  (isinstance n ["FunctionDef"] = false -> f n = Ok 0%Q) ->
  f n = Ok c ->
  (c <= if isinstance n ["FunctionDef"] then 1 else 0)%Q.
Proof.
  intros H1 H0 Hc. destruct (isinstance n ["FunctionDef"]); [exact (H1 c Hc)|].
  rewrite (H0 eq_refl) in Hc. inversion Hc. apply Qle_refl.
Qed.

Lemma class_term_le (f : node -> result Q) (n : node) (c : Q) :
  (forall c, f n = Ok c -> (c <= 1)%Q) ->
  (isinstance n ["ClassDef"] = false -> f n = Ok 0%Q) ->
  f n = Ok c ->
  (c <= if isinstance n ["ClassDef"] then 1 else 0)%Q.
Proof.
  intros H1 H0 Hc. destruct (isinstance n ["ClassDef"]); [exact (H1 c Hc)|].
  rewrite (H0 eq_refl) in Hc. inversion Hc. apply Qle_refl.
Qed.

(** X14: the summed scores can exceed 1 but not the number of nodes they
    are summed over: function_length and parameter_count are at most the
    number of function definitions in the tree; class_coupling, cohesion,
    number_of_interfaces and polymorphism are at most the number of class
    definitions. *)
Theorem analyze_tree_sums_bounded (tree : node) (scores : scores_t) (total : Q) :
  analyze_tree tree = Ok (scores, total) ->
  Forall (fun key => exists v, dict_get key scores = Some v /\
                               (v <= Qnat (length (function_defs tree)))%Q)
    ["function_length"; "parameter_count"] /\
  Forall (fun key => exists v, dict_get key scores = Some v /\
                               (v <= Qnat (length (class_defs tree)))%Q)
    ["class_coupling"; "cohesion"; "number_of_interfaces"; "polymorphism"].
Proof.
  intros H. unfold analyze_tree in H. do 11 bind_inv H.
  inversion H; subst scores total. clear H.
  unfold function_defs, class_defs.
  split; repeat apply List.Forall_cons; try apply List.Forall_nil;
    (eexists; split; [reflexivity|]).
  - refine (sum_over_walk_bounded _ _ tree a2 _ Ha2). intros n c.
    apply function_term_le.
    + intros c' Hc'. apply (calculate_function_length_range n c' Hc').
    + intros Hf. unfold calculate_function_length. rewrite Hf. reflexivity.
  - refine (sum_over_walk_bounded _ _ tree a3 _ Ha3). intros n c.
    apply function_term_le.
    + intros c' Hc'. apply (calculate_parameter_count_range n c' Hc').
    + intros Hf. unfold calculate_parameter_count. rewrite Hf. reflexivity.
  - refine (sum_over_walk_bounded _ _ tree a4 _ Ha4). intros n c.
    apply (class_term_le (fun n => calculate_class_coupling n a)).
    + intros c' Hc'. apply (calculate_class_coupling_range n a c' Hc').
    + intros Hf. unfold calculate_class_coupling. rewrite Hf. reflexivity.
  - refine (sum_over_walk_bounded _ _ tree a5 _ Ha5). intros n c.
    apply class_term_le.
    + intros c' Hc'. apply (calculate_cohesion_range n c' Hc').
    + intros Hf. unfold calculate_cohesion. rewrite Hf. reflexivity.
  - refine (sum_over_walk_bounded _ _ tree a8 _ Ha8). intros n c.
    apply class_term_le.
    + intros c' Hc'. apply (calculate_number_of_interfaces_range n c' Hc').
    + intros Hf. unfold calculate_number_of_interfaces. rewrite Hf. reflexivity.
  - refine (sum_over_walk_bounded _ _ tree a9 _ Ha9). intros n c.
    apply (class_term_le (fun n => calculate_polymorphism n a1)).
    + intros c' Hc'. apply (calculate_polymorphism_range n a1 c' Hc').
    + intros Hf. unfold calculate_polymorphism. rewrite Hf. reflexivity.
Qed.

Lemma analyze_tree_sums_bounded_witness :
  exists scores total,
    analyze_tree two_functions = Ok (scores, total) /\
    Forall (fun key => exists v, dict_get key scores = Some v /\
                                 (v <= Qnat (length (function_defs two_functions)))%Q)
      ["function_length"; "parameter_count"].
Proof.
  eexists _, _. split; [vm_compute; reflexivity|].
  eapply (analyze_tree_sums_bounded two_functions). vm_compute. reflexivity.
Defined.

(** ** Class coupling and the class's own name *)

Lemma class_names_contains (tree cls : node) (cn : gset string) (name : string) :
  class_names tree = Ok cn ->
  In cls (walk tree) -> isinstance cls ["ClassDef"] = true ->
  getattr cls "name" = Ok (VStr name) ->
  name ∈ cn.
Proof.
  intros Hcn Hin Hcls Hname. unfold class_names in Hcn.
  apply bind_Ok_inv in Hcn as (names & Hnames & Hcn). inversion Hcn; subst cn.
  apply mapM_Ok_inv in Hnames.
  destruct (Forall2_In_l _ _ _ cls Hnames) as (s & Hs & Hc).
  { apply List.filter_In. split; assumption. }
  rewrite (bind_Ok _ _ _ Hname) in Hc. inversion Hc; subst s.
  apply elem_of_list_to_set, list_elem_of_In. exact Hs.
Qed.

Lemma py_sum_bool_pos {A : Type} (f : A -> result bool) (l : list A)
    (flags : list bool) (x : A) :
  Forall2 (fun y b => f y = Ok b) l flags ->
  In x l -> f x = Ok true -> 1 <= py_sum_bool flags.
Proof.
  unfold py_sum_bool. induction 1 as [|y b l flags Hy _ IH]; intros Hx Hf;
    [destruct Hx|].
  cbn [List.filter]. destruct Hx as [->|Hx].
  - rewrite Hf in Hy. inversion Hy; subst b. cbn [length]. lia.
  - specialize (IH Hx Hf). destruct b; cbn [length]; lia.
Qed.

Lemma cap_tenth (k : nat) : 1 <= k -> (1 # 10 <= Qmin (Qnat k / 10) 1)%Q.
Proof.
  intros Hk. apply Q.min_glb; [|discriminate].
  apply Qle_shift_div_l; [reflexivity|].
  apply (Qle_trans _ (Qnat 1)); [discriminate|apply Qnat_le, Hk].
Qed.

(** X15: a reference inside a class to the name of any class of the tree,
    its own name included, counts as coupling: the class's term is then at
    least 1/10. *)
Theorem calculate_class_coupling_reference (tree cls other x : node) (name : string) :
  well_formed tree = true ->
  In cls (walk tree) -> isinstance cls ["ClassDef"] = true ->
  In other (walk tree) -> isinstance other ["ClassDef"] = true ->
  getattr other "name" = Ok (VStr name) ->
  In x (walk cls) -> isinstance x ["Name"] = true ->
  getattr x "id" = Ok (VStr name) ->
  exists cn c,
    class_names tree = Ok cn /\
    calculate_class_coupling cls cn = Ok c /\
    (1 # 10 <= c)%Q.
Proof.
  intros Hwf Hcls Hc Hother Ho Hname Hx Hxn Hid.
  destruct (class_names_total tree Hwf) as [cn Hcn].
  pose proof (class_names_contains tree other cn name Hcn Hother Ho Hname) as Hin.
  destruct (mapM_total (is_name_in cn) (walk cls)) as [flags Hflags].
  { apply List.Forall_forall. intros y Hy.
    exact (is_name_in_total tree cn y Hwf (walk_trans tree cls y Hcls Hy)). }
  exists cn, (Qmin (Qnat (py_sum_bool flags) / 10) 1).
  split; [exact Hcn|]. split.
  - unfold calculate_class_coupling. rewrite Hc, (bind_Ok _ _ _ Hflags). reflexivity.
  - apply cap_tenth.
    apply (py_sum_bool_pos (is_name_in cn) (walk cls) flags x
             (mapM_Ok_inv _ _ _ Hflags) Hx).
    unfold is_name_in. rewrite Hxn, (bind_Ok _ _ _ Hid). cbn [set_contains].
    f_equal. apply bool_decide_eq_true. exact Hin.
Qed.

Lemma calculate_class_coupling_reference_witness :
  exists cn c,
    class_names self_ref_module = Ok cn /\
    calculate_class_coupling self_ref_class cn = Ok c /\
    (1 # 10 <= c)%Q.
Proof.
  assert (Hcls : In self_ref_class (walk self_ref_module))
    by (vm_compute; right; left; reflexivity).
  assert (Hx : In (ast_Name "C" ast_Load) (walk self_ref_class))
    by (vm_compute; right; right; left; reflexivity).
  exact (calculate_class_coupling_reference self_ref_module self_ref_class
           self_ref_class (ast_Name "C" ast_Load) "C"
           eq_refl Hcls eq_refl Hcls eq_refl eq_refl Hx eq_refl eq_refl).
Defined.

(** ** The function_length entry of a report *)

Lemma function_length_terms (l : list node) (vals : list Q) :
  mapM calculate_function_length l = Ok vals ->
  exists lens,
    mapM body_length (List.filter (fun n => isinstance n ["FunctionDef"]) l) = Ok lens /\
    (py_sum vals == py_sum (map (fun len => Qmin (Qnat len / 50) 1) lens))%Q.
Proof.
  revert vals. induction l as [|n l IH]; intros vals H.
  - inversion H. exists []. split; reflexivity.
  - rewrite mapM_cons in H.
    apply bind_Ok_inv in H as (c & Hc & H).
    apply bind_Ok_inv in H as (rest & Hrest & H). inversion H; subst vals.
    destruct (IH rest Hrest) as (lens & Hlens & Hsum).
    cbn [List.filter]. unfold calculate_function_length in Hc.
    destruct (isinstance n ["FunctionDef"]).
    + apply bind_Ok_inv in Hc as (body & Hbody & Hc).
      apply bind_Ok_inv in Hc as (len & Hlen & Hc). inversion Hc; subst c.
      exists (len :: lens). split.
      * assert (Hbl : body_length n = Ok len).
        { unfold body_length. rewrite (bind_Ok _ _ _ Hbody). exact Hlen. }
        rewrite mapM_cons, (bind_Ok _ _ _ Hbl), (bind_Ok _ _ _ Hlens).
        reflexivity.
      * cbn [map]. rewrite !py_sum_cons, Hsum. reflexivity.
    + inversion Hc; subst c. exists lens. split; [exact Hlens|].
      rewrite py_sum_cons, Hsum. ring.
Qed.

(** C5: in every report the function_length entry is the sum, over the
    function definitions of the tree, of [min(len(body) / 50, 1)]: it is 1
    for a file whose single function has 51 body statements, and 6/5 (1.2)
    for a file with that function and a second one of 10 body statements. *)
Theorem function_length_sums (tree : node) (scores : scores_t) (total : Q) :
  analyze_tree tree = Ok (scores, total) ->
  exists v lens,
    dict_get "function_length" scores = Some v /\
    mapM body_length (function_defs tree) = Ok lens /\
    (v == py_sum (map (fun len => Qmin (Qnat len / 50) 1) lens))%Q /\
    (lens = [51] -> (v == 1)%Q) /\
    (lens = [51; 10] -> (v == 6 # 5)%Q).
Proof.
  intros H. unfold analyze_tree in H. do 11 bind_inv H.
  inversion H; subst scores total. clear H.
  unfold sum_over_walk in Ha2.
  apply bind_Ok_inv in Ha2 as (vals & Hvals & Ha2). inversion Ha2; subst a2.
  destruct (function_length_terms (walk tree) vals Hvals) as (lens & Hlens & Hsum).
  exists (py_sum vals), lens.
  split; [reflexivity|]. split; [exact Hlens|]. split; [exact Hsum|].
  split; intros ->; rewrite Hsum; reflexivity.
Qed.

Lemma function_length_sums_witness :
  (exists scores total v,
     analyze_tree one_long_function = Ok (scores, total) /\
     dict_get "function_length" scores = Some v /\ (v == 1)%Q) /\
  (exists scores total v,
     analyze_tree two_functions = Ok (scores, total) /\
     dict_get "function_length" scores = Some v /\ (v == 6 # 5)%Q).
Proof.
  split.
  - destruct (analyze_tree one_long_function) as [[scores total]|e] eqn:H;
      [|vm_compute in H; discriminate].
    destruct (function_length_sums one_long_function scores total H)
      as (v & lens & Hv & Hlens & _ & H1 & _).
    exists scores, total, v. split; [reflexivity|]. split; [exact Hv|].
    apply H1. vm_compute in Hlens. inversion Hlens. reflexivity.
  - destruct (analyze_tree two_functions) as [[scores total]|e] eqn:H;
      [|vm_compute in H; discriminate].
    destruct (function_length_sums two_functions scores total H)
      as (v & lens & Hv & Hlens & _ & _ & H2).
    exists scores, total, v. split; [reflexivity|]. split; [exact Hv|].
    apply H2. vm_compute in Hlens. inversion Hlens. reflexivity.
Defined.

(** ** The recursive rules within the frames available *)

Lemma fold_left_max_ge (g : node -> nat) (l : list node) (a : nat) (c : node) :
  In c l -> g c <= fold_left (fun acc x => Nat.max acc (g x)) l a.
Proof.
  assert (Hacc : forall (l : list node) (a : nat),
             a <= fold_left (fun acc x => Nat.max acc (g x)) l a).
  { induction l0 as [|x l0 IH]; intros a0; cbn [fold_left]; [lia|].
    specialize (IH (Nat.max a0 (g x))). lia. }
  revert a. induction l as [|x l IH]; intros a Hc; [destruct Hc|].
  cbn [fold_left]. destruct Hc as [->|Hc]; [|exact (IH _ Hc)].
  specialize (Hacc l (Nat.max a (g c))). lia.
Qed.

Lemma fold_left_max_attained (g : node -> nat) (l : list node) (a k : nat) :
  k < fold_left (fun acc x => Nat.max acc (g x)) l a ->
  k < a \/ exists c, In c l /\ k < g c.
Proof.
  revert a. induction l as [|x l IH]; intros a H; cbn [fold_left] in H; [left; exact H|].
  destruct (IH _ H) as [Ha|(c & Hc & Hk)].
  - destruct (Nat.max_spec a (g x)) as [[_ Hm]|[_ Hm]]; rewrite Hm in Ha.
    + right. exists x. split; [left; reflexivity|exact Ha].
    + left. exact Ha.
  - right. exists c. split; [right; exact Hc|exact Hk].
Qed.

Lemma height_eq (n : node) :
  height n = S (fold_left (fun acc c => Nat.max acc (height c)) (iter_child_nodes n) 0).
Proof.
  destruct n as [cls fields]. cbn [height]. f_equal.
  apply (for_children_eq _ (Node cls fields)).
Qed.

Lemma height_child (n c : node) : In c (iter_child_nodes n) -> height c < height n.
Proof.
  intros Hc. rewrite (height_eq n).
  pose proof (fold_left_max_ge height (iter_child_nodes n) 0 c Hc). lia.
Qed.

Lemma height_deep_child (n : node) (k : nat) :
  S k < height n -> exists c, In c (iter_child_nodes n) /\ k < height c.
Proof.
  rewrite height_eq. intros H.
  destruct (fold_left_max_attained height (iter_child_nodes n) 0 k) as [H0|Hc];
    [lia|lia|exact Hc].
Qed.

Lemma add_step_Raise (f : node -> result Q) (l : list node) (e : exn) :
  fold_left (add_step f) l (Raise e) = Raise e.
Proof. induction l as [|c l IH]; [reflexivity|exact IH]. Qed.

Lemma add_step_pure (f : node -> result Q) (g : node -> Q) (l : list node) (a : Q) :
  (forall c, In c l -> f c = Ok (g c)) ->
  fold_left (add_step f) l (Ok a) = Ok (fold_left (fun acc c => acc + g c)%Q l a).
Proof.
  revert a. induction l as [|c l IH]; intros a H; [reflexivity|].
  cbn [fold_left]. unfold add_step at 2. cbn.
  rewrite (H c (or_introl eq_refl)). cbn. apply IH.
  intros x Hx. apply H. right. exact Hx.
Qed.

Lemma add_step_deep (f : node -> result Q) (l : list node) (a : Q) :
  (forall c, In c l -> (exists v, f c = Ok v) \/ f c = Raise RecursionError) ->
  (exists c, In c l /\ f c = Raise RecursionError) ->
  fold_left (add_step f) l (Ok a) = Raise RecursionError.
Proof.
  revert a. induction l as [|c l IH]; intros a Hall (x & Hx & Hr); [destruct Hx|].
  cbn [fold_left]. unfold add_step at 2. cbn.
  destruct (Hall c (or_introl eq_refl)) as [[v Hv]|Hc].
  - rewrite Hv. cbn. apply IH.
    + intros y Hy. apply Hall. right. exact Hy.
    + destruct Hx as [->|Hx]; [rewrite Hv in Hr; discriminate|].
      exists x. split; assumption.
  - rewrite Hc. cbn. apply add_step_Raise.
Qed.

Lemma max_step_pure (f : node -> result Q) (g : node -> Q) (l : list node) (a : Q) :
  (forall c, In c l -> f c = Ok (g c)) ->
  fold_left (max_step f) l (Ok a) = Ok (fold_left (fun m c => Qmax m (g c)) l a).
Proof.
  revert a. induction l as [|c l IH]; intros a H; [reflexivity|].
  rewrite max_step_cons, (H c (or_introl eq_refl)). cbn [fold_left]. apply IH.
  intros x Hx. apply H. right. exact Hx.
Qed.

Lemma max_step_ext (f g : node -> result Q) (l : list node) (acc : result Q) :
  (forall c, In c l -> f c = g c) ->
  fold_left (max_step f) l acc = fold_left (max_step g) l acc.
Proof.
  revert acc. induction l as [|c l IH]; intros acc H; [reflexivity|].
  cbn [fold_left]. unfold max_step at 2 4. rewrite (H c (or_introl eq_refl)).
  apply IH. intros x Hx. apply H. right. exact Hx.
Qed.

(** With enough frames the limited rules return what the structural rules
    compute. *)
Lemma calculate_cyclomatic_complexity_within_enough (frames : nat) (n : node) :
  height n <= frames ->
  calculate_cyclomatic_complexity_within frames n
  = Ok (calculate_cyclomatic_complexity n).
Proof.
  revert n. induction frames as [|frames IH]; intros n Hh.
  - pose proof (height_eq n). lia.
  - cbn [calculate_cyclomatic_complexity_within].
    rewrite (add_step_pure _ calculate_cyclomatic_complexity).
    + rewrite calculate_cyclomatic_complexity_eq. reflexivity.
    + intros c Hc. apply IH. pose proof (height_child n c Hc). lia.
Qed.

Lemma calculate_nesting_depth_within_enough (frames : nat) (n : node) (d : Q) :
  height n <= frames ->
  calculate_nesting_depth_within frames n d = Ok (calculate_nesting_depth n d).
Proof.
  revert n d. induction frames as [|frames IH]; intros n d Hh.
  - pose proof (height_eq n). lia.
  - cbn [calculate_nesting_depth_within]. cbv zeta.
    rewrite (max_step_pure _ (fun child => calculate_nesting_depth child
               (if isinstance n ["If"; "For"; "While"; "With"; "Try"]
                then (d + 1)%Q else d))).
    + rewrite calculate_nesting_depth_eq. reflexivity.
    + intros c Hc. apply IH. pose proof (height_child n c Hc). lia.
Qed.

Lemma calculate_inheritance_depth_within_enough (frames : nat) (n : node) (d : Q) :
  height n <= frames ->
  calculate_inheritance_depth_within frames n d = calculate_inheritance_depth n d.
Proof.
  revert n d. induction frames as [|frames IH]; intros n d Hh.
  - pose proof (height_eq n). lia.
  - cbn [calculate_inheritance_depth_within]. rewrite calculate_inheritance_depth_eq.
    apply bind_ext. intros d'. cbv zeta. f_equal.
    apply max_step_ext. intros c Hc. apply IH.
    pose proof (height_child n c Hc). lia.
Qed.

Lemma analyze_tree_within_enough (frames : nat) (tree : node) :
  height tree <= frames ->
  analyze_tree_within frames tree = analyze_tree tree.
Proof.
  intros Hh. unfold analyze_tree_within, analyze_tree.
  rewrite (calculate_cyclomatic_complexity_within_enough frames tree Hh).
  rewrite (calculate_nesting_depth_within_enough frames tree 0 Hh).
  rewrite (calculate_inheritance_depth_within_enough frames tree 0 Hh).
  reflexivity.
Qed.

(** A tree deeper than the frames available exhausts them. *)
Lemma calculate_cyclomatic_complexity_within_cases (frames : nat) (n : node) :
  (exists v, calculate_cyclomatic_complexity_within frames n = Ok v) \/
  calculate_cyclomatic_complexity_within frames n = Raise RecursionError.
Proof.
  revert n. induction frames as [|frames IH]; intros n; [right; reflexivity|].
  cbn [calculate_cyclomatic_complexity_within].
  generalize (if isinstance n ["If"; "For"; "While"; "With"; "Try"; "ExceptHandler"]
              then (0 + 1)%Q else 0%Q) as a.
  induction (iter_child_nodes n) as [|c l IHl]; intros a.
  - left. eexists. reflexivity.
  - cbn [fold_left]. unfold add_step at 2. cbn.
    destruct (IH c) as [[v Hv]|Hr]; [rewrite Hv; cbn; apply IHl|].
    rewrite Hr. cbn. rewrite add_step_Raise. right. reflexivity.
Qed.

Lemma calculate_cyclomatic_complexity_within_deep (frames : nat) (n : node) :
  frames < height n ->
  calculate_cyclomatic_complexity_within frames n = Raise RecursionError.
Proof.
  revert n. induction frames as [|frames IH]; intros n Hh; [reflexivity|].
  cbn [calculate_cyclomatic_complexity_within].
  destruct (height_deep_child n frames Hh) as (c & Hc & Hdeep).
  rewrite add_step_deep; [reflexivity| |].
  - intros x _. apply calculate_cyclomatic_complexity_within_cases.
  - exists c. split; [exact Hc|exact (IH c Hdeep)].
Qed.

(** X5: with enough frames for its height, a class definition of a
    well-formed tree that has at least one base class, reached at depth
    [d], evaluates to [min((d + len(bases)) / 5, 1)] whatever it contains:
    the base counts of classes nested in it do not accumulate. *)
Theorem calculate_inheritance_depth_within_class
    (frames : nat) (n : node) (bases : list node) (depth : Q) :
  well_formed n = true ->
  isinstance n ["ClassDef"] = true ->
  getattr n "bases" = Ok (VList bases) ->
  bases <> [] ->
  (0 <= depth)%Q ->
  height n <= frames ->
  calculate_inheritance_depth_within frames n depth
  = Ok (Qmin ((depth + Qnat (length bases)) / 5) 1).
Proof.
  intros Hwf Hcls Hbases Hne Hd Hh.
  rewrite (calculate_inheritance_depth_within_enough frames n depth Hh).
  exact (inheritance_depth_class_value n bases depth Hwf Hcls Hbases Hne Hd).
Qed.

Lemma calculate_inheritance_depth_within_class_witness :
  calculate_inheritance_depth_within 4 derived_class 0
  = Ok (Qmin ((0 + Qnat 2) / 5) 1).
Proof.
  apply (calculate_inheritance_depth_within_class 4 derived_class
           [ast_Name "A" ast_Load; ast_Name "B" ast_Load] 0).
  - reflexivity.
  - reflexivity.
  - reflexivity.
  - discriminate.
  - discriminate.
  - vm_compute. lia.
Defined.

(** X6: with enough frames for its height, a well-formed tree whose root
    is not a class definition (every module) has an inheritance depth,
    computed from depth 0, between 0 and 1/5. *)
Theorem calculate_inheritance_depth_within_root (frames : nat) (n : node) :
  well_formed n = true ->
  isinstance n ["ClassDef"] = false ->
  height n <= frames ->
  exists v, calculate_inheritance_depth_within frames n 0 = Ok v /\
            (0 <= v)%Q /\ (v <= 1 # 5)%Q.
Proof.
  intros Hwf Hcls Hh.
  rewrite (calculate_inheritance_depth_within_enough frames n 0 Hh).
  exact (inheritance_depth_root_value n Hwf Hcls).
Qed.

Lemma calculate_inheritance_depth_within_root_witness :
  exists v, calculate_inheritance_depth_within 5 derived_module 0 = Ok v /\
            (0 <= v)%Q /\ (v <= 1 # 5)%Q.
Proof.
  apply (calculate_inheritance_depth_within_root 5 derived_module).
  - reflexivity.
  - reflexivity.
  - vm_compute. lia.
Defined.

(** X16: for a well-formed tree that has no global declaration, the
    analysis returns a report when the frames available to the recursive
    rules cover the height of the tree, and raises [RecursionError] when
    they do not. *)
Theorem analyze_tree_within_total (frames : nat) (tree : node) :
  well_formed tree = true ->
  (forall g, In g (walk tree) -> isinstance g ["Global"] = false) ->
  (height tree <= frames ->
   exists scores total, analyze_tree_within frames tree = Ok (scores, total)) /\
  (frames < height tree ->
   analyze_tree_within frames tree = Raise RecursionError).
Proof.
  intros Hwf Hng. split; intros Hh.
  - rewrite (analyze_tree_within_enough frames tree Hh).
    exact (analyze_tree_returns tree Hwf Hng).
  - unfold analyze_tree_within.
    destruct (class_names_total tree Hwf) as [cn Hcn].
    rewrite (bind_Ok _ _ _ Hcn).
    rewrite (bind_Ok _ _ _ (global_vars_no_global tree (filter_none _ _ Hng))).
    destruct (class_methods_total tree Hwf) as [cm Hcm].
    rewrite (bind_Ok _ _ _ Hcm).
    apply bind_Raise.
    exact (calculate_cyclomatic_complexity_within_deep frames tree Hh).
Qed.

Lemma analyze_tree_within_total_witness :
  (exists scores total,
     analyze_tree_within 10 (ast_Module [deep_ifs 3]) = Ok (scores, total)) /\
  analyze_tree_within 2 (ast_Module [deep_ifs 3]) = Raise RecursionError.
Proof.
  assert (Hwf : well_formed (ast_Module [deep_ifs 3]) = true) by reflexivity.
  assert (Hng : forall g, In g (walk (ast_Module [deep_ifs 3])) ->
                          isinstance g ["Global"] = false).
  { intros g Hg. vm_compute in Hg.
    repeat (destruct Hg as [<-|Hg]; [reflexivity|]). destruct Hg. }
  split.
  - apply (analyze_tree_within_total 10 (ast_Module [deep_ifs 3]) Hwf Hng).
    vm_compute. lia.
  - apply (analyze_tree_within_total 2 (ast_Module [deep_ifs 3]) Hwf Hng).
    vm_compute. lia.
Defined.
